(** * FoodRescue S1 backend (backend/main.py): lifecycle, expiry sweep,
      marker projection and the WebSocket connection manager.

    The Python module is embedded shallowly.  Handlers are computations in
    a state-and-exception monad over a [World] that holds the [donations]
    table, the module-level [manager] singleton and an observation trace.
    What the environment decides (whether a commit goes through, whether a
    send on a socket raises) is read from an [Env].  The handlers of the
    auth router (backend/auth.py) follow, over the users table.

    Conventions.
    - [datetime] values are naive UTC instants counted in microseconds,
      the resolution of Python's [datetime]; a [timedelta] is a signed
      number of microseconds.
    - Python [float]s that are only stored and compared with the exact
      bounds of the schema (0, 500, 90, 180) are represented by the
      rational they denote.  The arithmetic of the marker projection,
      [total_seconds() / 3600] and [round], is done in binary64.
    - [str] values are Rocq strings; characters are taken to be ASCII.
    - A WebSocket object is known by its identity (Starlette compares
      connections by identity), here a natural number. *)

From Stdlib Require Import ZArith QArith Qround Qpower List String Ascii Bool Lia Lqa.
From Stdlib Require Import Sorting.Sorted Sorting.Permutation DecimalString.
From Stdlib Require Decimal DecimalFacts DecimalPos.
From Stdlib Require Import Floats.SpecFloat.
Import ListNotations.
Local Open Scope string_scope.
Local Open Scope list_scope.
Local Open Scope Z_scope.

(* ====================================================================== *)
(** ** Enums *)

Inductive FoodType := VEG | NON_VEG | VEGAN | MIXED.

Inductive DonationStatus := AVAILABLE | ASSIGNED | IN_TRANSIT | DELIVERED | CANCELLED.

Definition FoodType_value (f : FoodType) : string :=
  match f with
  | VEG => "VEG" | NON_VEG => "NON_VEG" | VEGAN => "VEGAN" | MIXED => "MIXED"
  end.

Definition DonationStatus_value (s : DonationStatus) : string :=
  match s with
  | AVAILABLE => "AVAILABLE" | ASSIGNED => "ASSIGNED"
  | IN_TRANSIT => "IN_TRANSIT" | DELIVERED => "DELIVERED"
  | CANCELLED => "CANCELLED"
  end.

Definition DonationStatus_eqb (a b : DonationStatus) : bool :=
  match a, b with
  | AVAILABLE, AVAILABLE | ASSIGNED, ASSIGNED | IN_TRANSIT, IN_TRANSIT
  | DELIVERED, DELIVERED | CANCELLED, CANCELLED => true
  | _, _ => false
  end.

(* ====================================================================== *)
(** ** Database model and schemas *)

Definition datetime := Z.
Definition timedelta := Z.

(** [class Donation(Base)], one row of the [donations] table.  [location]
    is the PostGIS point, kept as the pair (longitude, latitude) that the
    WKT text [POINT(lon lat)] is built from. *)
Record Donation := mkDonation {
  id : Z;
  donor_name : string;
  donor_phone : string;
  food_type : FoodType;
  quantity_kg : Q;
  description : option string;
  location : option (Q * Q);
  latitude : Q;
  longitude : Q;
  address : string;
  status : DonationStatus;
  created_at : datetime;
  expires_at : datetime;
  assigned_volunteer_id : option Z;
  assigned_at : option datetime
}.

(** [class DonationCreate(BaseModel)], the request body of POST. *)
Module DonationCreate.
Record t := mk {
  donor_name : string;
  donor_phone : string;
  food_type : FoodType;
  quantity_kg : Q;
  description : option string;
  latitude : Q;
  longitude : Q;
  address : string;
  expires_at : datetime
}.
End DonationCreate.

(** [class MapMarker(BaseModel)]. *)
Module MapMarker.
Record t := mk {
  id : Z;
  latitude : Q;
  longitude : Q;
  food_type : FoodType;
  quantity_kg : Q;
  status : DonationStatus;
  donor_name : string;
  expires_at : datetime;
  time_until_expiry_hours : Q
}.
End MapMarker.

(** Messages and handler results are Python dicts of JSON values. *)
#[warnings="-register-all"]
Inductive Json :=
| JNull
| JInt (n : Z)
| JFloat (x : Q)
| JStr (s : string)
| JObj (fields : list (string * Json)).

(* ====================================================================== *)
(** ** World, environment and the handler monad *)

Definition WebSocket := nat.

(** What an outside observer can see happen, oldest first. *)
Inductive Effect :=
| EvCommit
| EvBroadcast (message : Json)
| EvSent (connection : WebSocket) (message : Json)
| EvSendFailed (connection : WebSocket) (message : Json).

Record World := mkWorld {
  donations : list Donation;
  next_id : Z;
  active_connections : list WebSocket;
  trace : list Effect
}.

Record Env := mkEnv {
  commit_ok : bool;
  send_json_ok : WebSocket -> Json -> bool;
  flushed_before_failure : bool
}.

Inductive Exn :=
| HTTPException (status_code : Z) (detail : string)
| RequestValidationError
| ValueError
| OperationalError
| InvalidRequestError
| SendError
| DataError.

Inductive Outcome (A : Type) :=
| Return (a : A)
| Raise (e : Exn).
Arguments Return {A} a.
Arguments Raise {A} e.

Definition M (A : Type) : Type := World -> Outcome A * World.

Definition ret {A} (a : A) : M A := fun w => (Return a, w).

Definition raise {A} (e : Exn) : M A := fun w => (Raise e, w).

Definition bind {A B} (m : M A) (k : A -> M B) : M B :=
  fun w =>
    match m w with
    | (Return a, w') => k a w'
    | (Raise e, w') => (Raise e, w')
    end.

(** [try: m  except Exception: h] *)
Definition try_except {A} (m : M A) (h : Exn -> M A) : M A :=
  fun w =>
    match m w with
    | (Return a, w') => (Return a, w')
    | (Raise e, w') => h e w'
    end.

Declare Scope py_scope.
Delimit Scope py_scope with py.
Notation "x <- m ;; k" := (bind m (fun x => k))
  (at level 61, m at next level, right associativity) : py_scope.
Notation "m ;; k" := (bind m (fun _ => k))
  (at level 61, right associativity) : py_scope.
Local Open Scope py_scope.

Definition get_world : M World := fun w => (Return w, w).

Definition log (e : Effect) : M unit :=
  fun w => (Return tt, mkWorld (donations w) (next_id w)
                               (active_connections w) (trace w ++ [e])).

Definition set_active_connections (l : list WebSocket) : M unit :=
  fun w => (Return tt, mkWorld (donations w) (next_id w) l (trace w)).

(* ====================================================================== *)
(** ** ConnectionManager *)

(** [list.remove(x)]: drops the first element equal to [x]; [None] stands
    for the [ValueError] raised when there is none. *)
Fixpoint list_remove (x : WebSocket) (l : list WebSocket) : option (list WebSocket) :=
  match l with
  | [] => None
  | y :: l' =>
      if Nat.eqb y x then Some l'
      else match list_remove x l' with
           | Some r => Some (y :: r)
           | None => None
           end
  end.

(** [await websocket.accept(); self.active_connections.append(websocket)] *)
Definition connect (websocket : WebSocket) : M unit :=
  w <- get_world ;;
  set_active_connections (active_connections w ++ [websocket]).

(** [self.active_connections.remove(conn)], shared by [disconnect] and by
    the clean-up loop of [broadcast]. *)
Definition active_connections_remove (conn : WebSocket) : M unit :=
  w <- get_world ;;
  match list_remove conn (active_connections w) with
  | Some l => set_active_connections l
  | None => raise ValueError
  end.

Definition disconnect (websocket : WebSocket) : M unit :=
  active_connections_remove websocket.

(** [await connection.send_json(message)] *)
Definition send_json (env : Env) (connection : WebSocket) (message : Json) : M unit :=
  if send_json_ok env connection message
  then log (EvSent connection message)
  else (log (EvSendFailed connection message) ;; raise SendError).

(** The first loop of [broadcast]: one guarded send per connection, the
    failing ones appended to [disconnected]. *)
Fixpoint broadcast_send (env : Env) (message : Json)
    (connections disconnected : list WebSocket) : M (list WebSocket) :=
  match connections with
  | [] => ret disconnected
  | connection :: rest =>
      disconnected' <-
        try_except (send_json env connection message ;; ret disconnected)
                   (fun _ => ret (disconnected ++ [connection])) ;;
      broadcast_send env message rest disconnected'
  end.

(** The second loop of [broadcast]: clean up dead connections. *)
Fixpoint broadcast_cleanup (disconnected : list WebSocket) : M unit :=
  match disconnected with
  | [] => ret tt
  | conn :: rest => active_connections_remove conn ;; broadcast_cleanup rest
  end.

(** [ConnectionManager.broadcast] when no other task runs during its
    awaits.  The pass under an arbitrary schedule of other tasks is
    [broadcast_interleaved] below, of which this is the case of the empty
    schedule. *)
Definition broadcast (env : Env) (message : Json) : M unit :=
  log (EvBroadcast message) ;;
  w <- get_world ;;
  disconnected <- broadcast_send env message (active_connections w) [] ;;
  broadcast_cleanup disconnected.

(** The [except WebSocketDisconnect] branch of [websocket_endpoint]: the
    connection's own task sees the closure and unregisters itself. *)
Definition websocket_endpoint_closed (websocket : WebSocket) : M unit :=
  disconnect websocket.

(* ====================================================================== *)
(** ** The SQLAlchemy session *)

(** [db.commit()]: the pending table contents become the stored ones, or
    the store is unavailable, the transaction is rolled back and the
    error reaches the handler.  The id sequence is not transactional:
    when the INSERT had been flushed before the failure, the value it
    drew stays consumed. *)
Definition db_commit (env : Env) (pending : list Donation) (pending_next_id : Z) : M unit :=
  if commit_ok env
  then fun w => (Return tt, mkWorld pending pending_next_id
                                    (active_connections w) (trace w ++ [EvCommit]))
  else if flushed_before_failure env
  then fun w => (Raise OperationalError,
                 mkWorld (donations w) pending_next_id (active_connections w) (trace w))
  else raise OperationalError.

(** [db.query(Donation).filter(Donation.id == donation_id).first()] *)
Definition query_first_by_id (donation_id : Z) (rows : list Donation) : option Donation :=
  find (fun d => id d =? donation_id) rows.

(** [db.refresh(obj)]: reload the row from its primary key. *)
Definition db_refresh (pk : Z) : M Donation :=
  w <- get_world ;;
  match query_first_by_id pk (donations w) with
  | Some d => ret d
  | None => raise InvalidRequestError
  end.

(** [.filter(Donation.status == DonationStatus.AVAILABLE)] *)
Definition filter_available (rows : list Donation) : list Donation :=
  filter (fun d => DonationStatus_eqb (status d) AVAILABLE) rows.

(** [.order_by(Donation.expires_at.asc())], as a stable insertion sort. *)
Fixpoint insert_by_expires_at (d : Donation) (l : list Donation) : list Donation :=
  match l with
  | [] => [d]
  | x :: l' =>
      if expires_at d <=? expires_at x then d :: l
      else x :: insert_by_expires_at d l'
  end.

Definition order_by_expires_at_asc (rows : list Donation) : list Donation :=
  fold_right insert_by_expires_at [] rows.

(** [UPDATE donations SET status = ? WHERE id = ?], what the flush emits
    for [donation.status = new_status]. *)
Definition set_status (d : Donation) (new_status : DonationStatus) : Donation :=
  mkDonation (id d) (donor_name d) (donor_phone d) (food_type d) (quantity_kg d)
             (description d) (location d) (latitude d) (longitude d) (address d)
             new_status (created_at d) (expires_at d)
             (assigned_volunteer_id d) (assigned_at d).

Definition update_status_where_id (donation_id : Z) (new_status : DonationStatus)
    (rows : list Donation) : list Donation :=
  map (fun d => if id d =? donation_id then set_status d new_status else d) rows.

(* ====================================================================== *)
(** ** Request validation ([Field] constraints of [DonationCreate]) *)

Definition is_digit (c : ascii) : bool :=
  (48 <=? nat_of_ascii c)%nat && (nat_of_ascii c <=? 57)%nat.

Definition is_nonzero_digit (c : ascii) : bool :=
  (49 <=? nat_of_ascii c)%nat && (nat_of_ascii c <=? 57)%nat.

Fixpoint all_chars (p : ascii -> bool) (s : string) : bool :=
  match s with
  | EmptyString => true
  | String c rest => p c && all_chars p rest
  end.

(** [[1-9]\d{9,14}$] *)
Definition phone_digits (s : string) : bool :=
  match s with
  | EmptyString => false
  | String c rest =>
      is_nonzero_digit c && all_chars is_digit rest
      && (9 <=? String.length rest)%nat && (String.length rest <=? 14)%nat
  end.

(** [pattern=r'^\+?[1-9]\d{9,14}$'] *)
Definition phone_pattern (s : string) : bool :=
  match s with
  | String "+"%char rest => phone_digits rest
  | _ => phone_digits s
  end.

Definition length_between (lo hi : nat) (s : string) : bool :=
  (lo <=? String.length s)%nat && (String.length s <=? hi)%nat.

Definition valid_donor_name (d : DonationCreate.t) : bool :=
  length_between 2 100 (DonationCreate.donor_name d).

Definition valid_donor_phone (d : DonationCreate.t) : bool :=
  phone_pattern (DonationCreate.donor_phone d).

(** [gt=0, le=500] *)
Definition valid_quantity_kg (d : DonationCreate.t) : bool :=
  negb (Qle_bool (DonationCreate.quantity_kg d) 0)
  && Qle_bool (DonationCreate.quantity_kg d) 500.

Definition valid_description (d : DonationCreate.t) : bool :=
  match DonationCreate.description d with
  | None => true
  | Some s => (String.length s <=? 500)%nat
  end.

(** [ge=-90, le=90] *)
Definition valid_latitude (d : DonationCreate.t) : bool :=
  Qle_bool (-90) (DonationCreate.latitude d) && Qle_bool (DonationCreate.latitude d) 90.

(** [ge=-180, le=180] *)
Definition valid_longitude (d : DonationCreate.t) : bool :=
  Qle_bool (-180) (DonationCreate.longitude d) && Qle_bool (DonationCreate.longitude d) 180.

Definition valid_address (d : DonationCreate.t) : bool :=
  length_between 10 300 (DonationCreate.address d).

(** [expires_at: datetime] carries no constraint. *)
Definition validate_DonationCreate (d : DonationCreate.t) : bool :=
  valid_donor_name d && valid_donor_phone d && valid_quantity_kg d
  && valid_description d && valid_latitude d && valid_longitude d
  && valid_address d.

(* ====================================================================== *)
(** ** Events *)

Definition new_donation_event (db_donation : Donation) : Json :=
  JObj [ ("event", JStr "NEW_DONATION");
         ("data", JObj [ ("id", JInt (id db_donation));
                         ("latitude", JFloat (latitude db_donation));
                         ("longitude", JFloat (longitude db_donation));
                         ("food_type", JStr (FoodType_value (food_type db_donation)));
                         ("quantity_kg", JFloat (quantity_kg db_donation));
                         ("donor_name", JStr (donor_name db_donation));
                         ("status", JStr (DonationStatus_value (status db_donation))) ]) ].

Definition status_update_event (donation_id : Z) (new_status : DonationStatus) : Json :=
  JObj [ ("event", JStr "STATUS_UPDATE");
         ("data", JObj [ ("id", JInt donation_id);
                         ("status", JStr (DonationStatus_value new_status)) ]) ].

(* ====================================================================== *)
(** ** API endpoints *)

(** [Donation(donor_name=..., ..., status=DonationStatus.AVAILABLE)] as it
    is inserted: [pk] comes from the table's sequence and [now] is the
    value of [datetime.utcnow] that the column default of [created_at]
    takes; the assignment columns are left NULL. *)
Definition new_Donation (pk : Z) (now : datetime) (donation : DonationCreate.t) : Donation :=
  mkDonation pk
             (DonationCreate.donor_name donation)
             (DonationCreate.donor_phone donation)
             (DonationCreate.food_type donation)
             (DonationCreate.quantity_kg donation)
             (DonationCreate.description donation)
             (Some (DonationCreate.longitude donation, DonationCreate.latitude donation))
             (DonationCreate.latitude donation)
             (DonationCreate.longitude donation)
             (DonationCreate.address donation)
             AVAILABLE
             now
             (DonationCreate.expires_at donation)
             None None.

(** [create_donation] *)
Definition create_donation (env : Env) (now : datetime) (donation : DonationCreate.t) : M Donation :=
  w <- get_world ;;
  let db_donation := new_Donation (next_id w) now donation in
  db_commit env (donations w ++ [db_donation]) (next_id w + 1) ;;
  db_donation <- db_refresh (id db_donation) ;;
  broadcast env (new_donation_event db_donation) ;;
  ret db_donation.

(** [POST /api/donations]: FastAPI validates the body against
    [DonationCreate] and only then calls the handler. *)
Definition post_api_donations (env : Env) (now : datetime) (body : DonationCreate.t) : M Donation :=
  if validate_DonationCreate body then create_donation env now body
  else raise RequestValidationError.

(** [f"{n}"] for an [int]. *)
Definition str_of_int (n : Z) : string := NilZero.string_of_int (Z.to_int n).

(** [cleanup_expired_donations]; [now] is [datetime.utcnow()]. *)
Definition cleanup_expired_donations (env : Env) (now : datetime) : M Json :=
  w <- get_world ;;
  let deleted_count :=
    Z.of_nat (List.length (filter (fun d => expires_at d <? now) (donations w))) in
  db_commit env (filter (fun d => negb (expires_at d <? now)) (donations w)) (next_id w) ;;
  ret (JObj [ ("message",
               JStr ("Successfully deleted " ++ str_of_int deleted_count
                     ++ " expired donations.")%string) ]).

(** [get_available_donations] *)
Definition get_available_donations : M (list Donation) :=
  w <- get_world ;;
  ret (order_by_expires_at_asc (filter_available (donations w))).

(** Binary64 arithmetic, as the standard library specifies it: a float is
    a [spec_float], division rounds to nearest, ties to even. *)
Definition float_div (x y : spec_float) : spec_float := SFdiv 53 1024 x y.

(** An [int] operand of a true division, taken exactly. *)
Definition float_of_int (n : Z) : spec_float :=
  match n with
  | Z0 => S754_zero false
  | Zpos p => S754_finite false p 0
  | Zneg p => S754_finite true p 0
  end.

(** The rational a float denotes.  An infinity is given the magnitude
    2^1024 and a NaN the value 0; neither arises from Python's bounded
    datetimes. *)
Definition SF2Q (x : spec_float) : Q :=
  match x with
  | S754_zero _ => 0
  | S754_nan => 0
  | S754_infinity s => inject_Z (cond_Zopp s (2 ^ 1024))
  | S754_finite s m e => (inject_Z (cond_Zopp s (Zpos m)) * Qpower 2 e)%Q
  end.

(** [timedelta.total_seconds()]: the microseconds over [10**6], one
    correctly rounded true division of integers. *)
Definition total_seconds (td : timedelta) : spec_float :=
  float_div (float_of_int td) (float_of_int 1000000).

(** Round to the nearest integer, ties to even. *)
Definition round_half_even (x : Q) : Z :=
  let f := Qfloor x in
  match (x - inject_Z f ?= 1 # 2)%Q with
  | Lt => f
  | Gt => f + 1
  | Eq => if Z.even f then f else f + 1
  end.

(** [round(x, 1)] on a float: the exact binary value of [x] is rounded to
    one decimal, ties to even, and the float nearest to that decimal is
    returned; the result is given as that decimal. *)
Definition round1 (x : spec_float) : Q :=
  match x with
  | S754_finite _ _ _ => round_half_even (SF2Q x * 10) # 10
  | _ => SF2Q x
  end.

(** The body of the loop of [get_map_markers]: one marker per donation. *)
Definition marker_of (now : datetime) (donation : Donation) : MapMarker.t :=
  let time_diff := float_div (total_seconds (expires_at donation - now)) (float_of_int 3600) in
  MapMarker.mk (id donation) (latitude donation) (longitude donation)
               (food_type donation) (quantity_kg donation) (status donation)
               (donor_name donation) (expires_at donation)
               (round1 time_diff).

(** [get_map_markers]; [now] is [datetime.utcnow()].  The query has no
    [order_by]: rows come back in the order the table holds them. *)
Definition get_map_markers (now : datetime) : M (list MapMarker.t) :=
  w <- get_world ;;
  ret (map (marker_of now) (filter_available (donations w))).

(** [get_donation_by_id] *)
Definition get_donation_by_id (donation_id : Z) : M Donation :=
  w <- get_world ;;
  match query_first_by_id donation_id (donations w) with
  | None => raise (HTTPException 404 "Donation not found")
  | Some donation => ret donation
  end.

(** [update_donation_status] *)
Definition update_donation_status (env : Env) (donation_id : Z)
    (new_status : DonationStatus) : M Json :=
  w <- get_world ;;
  match query_first_by_id donation_id (donations w) with
  | None => raise (HTTPException 404 "Donation not found")
  | Some donation =>
      db_commit env (update_status_where_id (id donation) new_status (donations w))
                (next_id w) ;;
      broadcast env (status_update_event (id donation) new_status) ;;
      ret (JObj [ ("message", JStr "Status updated");
                  ("donation_id", JInt donation_id);
                  ("new_status", JStr (DonationStatus_value new_status)) ])
  end.

(* ====================================================================== *)
(** ** Broadcasts interleaved with other tasks *)

(** [broadcast] above is the pass during which no other task runs.  The
    source awaits every send, and while the pass is suspended other tasks
    may change [active_connections]: a new client is accepted, or the task
    of a client sees its connection close and unregisters it. *)
Inductive OtherTask :=
| OtherConnect (websocket : WebSocket)
| OtherDisconnect (websocket : WebSocket).

(** An exception raised in another task stays in that task. *)
Definition run_other (w : World) (t : OtherTask) : World :=
  match t with
  | OtherConnect websocket => snd (connect websocket w)
  | OtherDisconnect websocket => snd (disconnect websocket w)
  end.

Definition run_others (others : list OtherTask) (w : World) : World :=
  fold_left run_other others w.

(** The first loop of [broadcast] under a schedule: its k-th entry is what
    other tasks do during the k-th await; once the schedule is used up
    nobody interferes any more.  [for connection in
    self.active_connections] reads the live list by position, [i], at
    every step. *)
Fixpoint broadcast_send_interleaved (env : Env) (message : Json)
    (schedule : list (list OtherTask)) (i : nat) (disconnected : list WebSocket)
    : M (list WebSocket) :=
  match schedule with
  | [] => fun w =>
      broadcast_send env message (skipn i (active_connections w)) disconnected w
  | others :: rest => fun w =>
      match nth_error (active_connections w) i with
      | None => (Return disconnected, w)
      | Some connection =>
          (disconnected' <-
             try_except (send_json env connection message ;; ret disconnected)
                        (fun _ => ret (disconnected ++ [connection])) ;;
           broadcast_send_interleaved env message rest (S i) disconnected')
            (run_others others w)
      end
  end.

(** [ConnectionManager.broadcast] under a schedule. *)
Definition broadcast_interleaved (env : Env) (schedule : list (list OtherTask))
    (message : Json) : M unit :=
  log (EvBroadcast message) ;;
  disconnected <- broadcast_send_interleaved env message schedule 0 [] ;;
  broadcast_cleanup disconnected.

(** [create_donation] and [update_donation_status] with their broadcast
    under a schedule. *)
Definition create_donation_interleaved (env : Env) (schedule : list (list OtherTask))
    (now : datetime) (donation : DonationCreate.t) : M Donation :=
  w <- get_world ;;
  let db_donation := new_Donation (next_id w) now donation in
  db_commit env (donations w ++ [db_donation]) (next_id w + 1) ;;
  db_donation <- db_refresh (id db_donation) ;;
  broadcast_interleaved env schedule (new_donation_event db_donation) ;;
  ret db_donation.

Definition update_donation_status_interleaved (env : Env)
    (schedule : list (list OtherTask)) (donation_id : Z)
    (new_status : DonationStatus) : M Json :=
  w <- get_world ;;
  match query_first_by_id donation_id (donations w) with
  | None => raise (HTTPException 404 "Donation not found")
  | Some donation =>
      db_commit env (update_status_where_id (id donation) new_status (donations w))
                (next_id w) ;;
      broadcast_interleaved env schedule (status_update_event (id donation) new_status) ;;
      ret (JObj [ ("message", JStr "Status updated");
                  ("donation_id", JInt donation_id);
                  ("new_status", JStr (DonationStatus_value new_status)) ])
  end.

(** A piece of trace made of send attempts only. *)
Definition only_sends (tr : list Effect) : Prop :=
  Forall (fun e => match e with
                   | EvSent _ _ | EvSendFailed _ _ => True
                   | _ => False
                   end) tr.

(* ====================================================================== *)
(** ** Observations on traces *)

(** The events handed to [manager.broadcast], oldest first. *)
Fixpoint broadcasts (tr : list Effect) : list Json :=
  match tr with
  | [] => []
  | EvBroadcast m :: tr' => m :: broadcasts tr'
  | _ :: tr' => broadcasts tr'
  end.

(** The connections a send was attempted on, in order. *)
Fixpoint attempted (tr : list Effect) : list WebSocket :=
  match tr with
  | [] => []
  | EvSent c _ :: tr' => c :: attempted tr'
  | EvSendFailed c _ :: tr' => c :: attempted tr'
  | _ :: tr' => attempted tr'
  end.

(** The messages that reached connection [c]. *)
Fixpoint received (c : WebSocket) (tr : list Effect) : list Json :=
  match tr with
  | [] => []
  | EvSent c' m :: tr' => if Nat.eqb c' c then m :: received c tr' else received c tr'
  | _ :: tr' => received c tr'
  end.

(** The trace of one guarded send. *)
Definition send_effect (env : Env) (message : Json) (c : WebSocket) : Effect :=
  if send_json_ok env c message then EvSent c message else EvSendFailed c message.

(** The whole trace of one broadcast pass over [conns]. *)
Definition broadcast_effects (env : Env) (message : Json) (conns : list WebSocket) : list Effect :=
  EvBroadcast message :: map (send_effect env message) conns.

(* ====================================================================== *)
(** ** Request sequences *)

Inductive Request :=
| PostDonation (now : datetime) (body : DonationCreate.t)
| PatchStatus (donation_id : Z) (new_status : DonationStatus)
| DeleteCleanup (now : datetime).

(** The world after serving one request, whether it returned or raised. *)
Definition serve (env : Env) (r : Request) (w : World) : World :=
  match r with
  | PostDonation now body => snd (post_api_donations env now body w)
  | PatchStatus donation_id new_status => snd (update_donation_status env donation_id new_status w)
  | DeleteCleanup now => snd (cleanup_expired_donations env now w)
  end.

Fixpoint serve_all (reqs : list (Env * Request)) (w : World) : World :=
  match reqs with
  | [] => w
  | (env, r) :: rest => serve_all rest (serve env r w)
  end.

(** A freshly created table, with whatever clients are connected. *)
Definition initial_world (conns : list WebSocket) : World := mkWorld [] 1 conns [].

(* ====================================================================== *)
(** ** The transition graph of the specification *)

(** Follows the words of the specification (4.1), for comparison with
    [update_donation_status]; the source has no such table. *)
Definition spec_legal_transition (old new : DonationStatus) : bool :=
  match old, new with
  | AVAILABLE, ASSIGNED => true
  | ASSIGNED, IN_TRANSIT => true
  | IN_TRANSIT, DELIVERED => true
  | AVAILABLE, CANCELLED | ASSIGNED, CANCELLED | IN_TRANSIT, CANCELLED => true
  | _, _ => false
  end.

(** The invariant of the specification (3) on one donation. *)
Definition spec_volunteer_invariant (d : Donation) : Prop :=
  (status d = ASSIGNED -> assigned_volunteer_id d <> None) /\
  (status d = AVAILABLE -> assigned_volunteer_id d = None).

(* ====================================================================== *)
(** ** Sample data *)

Definition sample_body (expires : datetime) : DonationCreate.t :=
  DonationCreate.mk "Raj's Restaurant" "+919876543210" VEG (31 # 2)%Q
                    (Some "Biryani and curry - prepared 2 hours ago")
                    (130827 # 10000)%Q (802707 # 10000)%Q
                    "123 Marina Beach Road, Chennai, Tamil Nadu 600001"
                    expires.

Definition sample_row (i : Z) (st : DonationStatus) (expires : datetime) : Donation :=
  mkDonation i "Raj's Restaurant" "+919876543210" VEG (31 # 2)%Q None
             (Some ((802707 # 10000)%Q, (130827 # 10000)%Q))
             (130827 # 10000)%Q (802707 # 10000)%Q
             "123 Marina Beach Road, Chennai, Tamil Nadu 600001"
             st 0 expires None None.

Definition one_hour : timedelta := 3600000000.

Definition all_up : Env := mkEnv true (fun _ _ => true) false.

Definition store_down : Env := mkEnv false (fun _ _ => true) false.

(** Every send works except on connection [bad]. *)
Definition broken_socket (bad : WebSocket) : Env :=
  mkEnv true (fun c _ => negb (Nat.eqb c bad)) false.

(* ====================================================================== *)
(** ** Auxiliary definitions for the proofs *)

(** The world a failed commit leaves: rows, connections and trace as
    before; the sequence at [pending_next_id] when the INSERT had been
    flushed. *)
Definition after_failed_commit (env : Env) (pending_next_id : Z) (w : World) : World :=
  if flushed_before_failure env
  then mkWorld (donations w) pending_next_id (active_connections w) (trace w)
  else w.

(** [l] with the first occurrence of each element of [dead] taken out, in
    turn; [None] as soon as one is missing. *)
Fixpoint remove_each (dead l : list WebSocket) : option (list WebSocket) :=
  match dead with
  | [] => Some l
  | c :: rest =>
      match list_remove c l with
      | Some l' => remove_each rest l'
      | None => None
      end
  end.

Definition with_connections (w : World) (l : list WebSocket) : World :=
  mkWorld (donations w) (next_id w) l (trace w).

Definition with_trace (w : World) (tr : list Effect) : World :=
  mkWorld (donations w) (next_id w) (active_connections w) tr.

(** The row [db.refresh] hands back once [row] has been appended to the
    table of [w]: the first one carrying its primary key. *)
Definition refreshed (w : World) (row : Donation) : Donation :=
  match query_first_by_id (id row) (donations w) with
  | Some d => d
  | None => row
  end.

(** The message built at the end of [cleanup_expired_donations]. *)
Definition cleanup_message (deleted_count : Z) : Json :=
  JObj [ ("message",
          JStr ("Successfully deleted " ++ str_of_int deleted_count
                ++ " expired donations.")%string) ].

(** The dict returned by [update_donation_status]. *)
Definition status_updated (donation_id : Z) (new_status : DonationStatus) : Json :=
  JObj [ ("message", JStr "Status updated");
         ("donation_id", JInt donation_id);
         ("new_status", JStr (DonationStatus_value new_status)) ].

(** Primary keys handed out so far lie below the sequence. *)
Definition keys_below_sequence (w : World) : Prop :=
  Forall (fun d => id d < next_id w) (donations w).

(** The order [order_by(Donation.expires_at.asc())] asks for. *)
Definition expires_at_le (a b : Donation) : Prop := expires_at a <= expires_at b.

(** No assignment is recorded on [d]. *)
Definition unassigned (d : Donation) : Prop :=
  assigned_volunteer_id d = None /\ assigned_at d = None.

(* ====================================================================== *)
(** ** The remaining endpoints of main.py *)

(** [OFFSET n] and [LIMIT n] on the rows of a result. *)
Fixpoint offset_rows (n : Z) (rows : list Donation) : list Donation :=
  match rows with
  | [] => []
  | d :: rest => if n <=? 0 then rows else offset_rows (n - 1) rest
  end.

Fixpoint limit_rows (n : Z) (rows : list Donation) : list Donation :=
  match rows with
  | [] => []
  | d :: rest => if n <=? 0 then [] else d :: limit_rows (n - 1) rest
  end.

(** The largest PostgreSQL [bigint]. *)
Definition BIGINT_MAX : Z := 9223372036854775807.

(** [get_all_donations]: [.offset(skip).limit(limit).all()].  [skip] and
    [limit] are Python ints passed to the database as they come: a
    negative value, or one beyond [bigint], makes the statement fail. *)
Definition get_all_donations (skip limit : Z) : M (list Donation) :=
  if (skip <? 0) || (limit <? 0) || (BIGINT_MAX <? skip) || (BIGINT_MAX <? limit)
  then raise DataError
  else
    w <- get_world ;;
    ret (limit_rows limit (offset_rows skip (donations w))).

(** What [websocket.receive_text()] yields next: a text frame, read when
    the clock shows [now], or [WebSocketDisconnect]. *)
Inductive ClientEvent :=
| ReceiveText (data : string) (now : datetime)
| ReceiveDisconnect.

(** The reply to a text frame; [timestamp] is
    [datetime.utcnow().isoformat()]. *)
Definition pong (timestamp : string) : Json :=
  JObj [ ("event", JStr "PONG"); ("timestamp", JStr timestamp) ].

(** The guarded loop of [websocket_endpoint], run on the frames of
    [inbox]; when [inbox] is used up the task is still waiting in
    [receive_text].  [isoformat] is [datetime.isoformat].  A failing
    [send_json] raises either [WebSocketDisconnect], which the handler
    catches, or another exception, which it does not; which one is the
    transport's choice, [send_failure_is_disconnect]. *)
Fixpoint websocket_loop (env : Env) (isoformat : datetime -> string)
    (send_failure_is_disconnect : bool) (websocket : WebSocket)
    (inbox : list ClientEvent) : M unit :=
  match inbox with
  | [] => ret tt
  | ReceiveText data now :: rest =>
      fun w =>
        match send_json env websocket (pong (isoformat now)) w with
        | (Return _, w') =>
            websocket_loop env isoformat send_failure_is_disconnect websocket rest w'
        | (Raise e, w') =>
            if send_failure_is_disconnect then disconnect websocket w'
            else (Raise e, w')
        end
  | ReceiveDisconnect :: _ => disconnect websocket
  end.

(** [websocket_endpoint] *)
Definition websocket_endpoint (env : Env) (isoformat : datetime -> string)
    (send_failure_is_disconnect : bool) (websocket : WebSocket)
    (inbox : list ClientEvent) : M unit :=
  connect websocket ;;
  websocket_loop env isoformat send_failure_is_disconnect websocket inbox.

(** The text frames of an inbox up to the first disconnect. *)
Fixpoint texts_before_disconnect (inbox : list ClientEvent) : list datetime :=
  match inbox with
  | [] => []
  | ReceiveText _ now :: rest => now :: texts_before_disconnect rest
  | ReceiveDisconnect :: _ => []
  end.

(** Whether the client closes within [inbox]. *)
Fixpoint closes (inbox : list ClientEvent) : bool :=
  match inbox with
  | [] => false
  | ReceiveText _ _ :: rest => closes rest
  | ReceiveDisconnect :: _ => true
  end.

(** The ids an endpoint returned donations under. *)
Definition returned_ids (r : Outcome (list Donation) * World) : list Z :=
  match fst r with
  | Return l => map id l
  | Raise _ => []
  end.

(** Every stored coordinate and quantity is within the schema's bounds. *)
Definition within_bounds (d : Donation) : Prop :=
  (0 < quantity_kg d /\ quantity_kg d <= 500 /\
   -90 <= latitude d /\ latitude d <= 90 /\
   -180 <= longitude d /\ longitude d <= 180)%Q.


(** The trace of the replies to the text frames read at [times]. *)
Definition pongs_sent (isoformat : datetime -> string) (websocket : WebSocket)
    (times : list datetime) : list Effect :=
  map (fun now => EvSent websocket (pong (isoformat now))) times.


(* ====================================================================== *)
(** ** Authentication (backend/auth.py) *)

(** The users table lives beside the donations; the handlers of auth.py
    are written with explicit state passing over an [AuthWorld].  The
    libraries they call ([passlib], [jose], [random]) and the store's
    answer to a commit are read from an [AuthEnv]. *)

Inductive UserRole := ADMIN | DISPATCHER | NGO | VOLUNTEER | DONOR.

Definition UserRole_value (r : UserRole) : string :=
  match r with
  | ADMIN => "ADMIN" | DISPATCHER => "DISPATCHER" | NGO => "NGO"
  | VOLUNTEER => "VOLUNTEER" | DONOR => "DONOR"
  end.

(** [class User(Base)] *)
Module User.
Record t := mk {
  id : Z;
  name : string;
  email : string;
  phone : string;
  password_hash : string;
  role : UserRole;
  otp_code : option string;
  otp_expires_at : option datetime;
  is_verified : Z;
  created_at : datetime
}.
End User.

Module UserCreate.
Record t := mk {
  name : string;
  email : string;
  phone : string;
  password : string;
  role : UserRole
}.
End UserCreate.

Module UserLogin.
Record t := mk {
  email : string;
  password : string
}.
End UserLogin.

Module OTPVerify.
Record t := mk {
  email : string;
  otp : string
}.
End OTPVerify.

Module OTPResend.
Record t := mk {
  email : string
}.
End OTPResend.

Module UserResponse.
Record t := mk {
  id : Z;
  name : string;
  email : string;
  phone : string;
  role : UserRole;
  is_verified : Z;
  created_at : datetime
}.
End UserResponse.

Module Token.
Record t := mk {
  access_token : string;
  token_type : string;
  user : UserResponse.t
}.
End Token.

Module MessageResponse.
Record t := mk {
  message : string;
  email : option string
}.
End MessageResponse.

(** One queued call [send_otp_email(email, otp, name)]. *)
Record OtpMail := mkOtpMail {
  mail_to : string;
  mail_otp : string;
  mail_name : string
}.

Record AuthWorld := mkAuthWorld {
  users : list User.t;
  next_user_id : Z;
  background_tasks : list OtpMail
}.

Record AuthEnv := mkAuthEnv {
  auth_commit_ok : bool;
  random_randint : Z;
  pwd_context_hash : string -> string;
  pwd_context_verify : string -> string -> bool;
  jwt_encode : list (string * Json) -> string;
  jwt_decode : datetime -> string -> option (list (string * Json));
  auth_flushed_before_failure : bool
}.

Inductive AuthExn :=
| AuthHTTPException (status_code : Z) (detail : string)
| AuthOperationalError
| AuthInvalidRequestError
| AuthTypeError.

Inductive AuthOutcome (A : Type) :=
| AuthReturn (a : A)
| AuthRaise (e : AuthExn).
Arguments AuthReturn {A} a.
Arguments AuthRaise {A} e.

(** [ACCESS_TOKEN_EXPIRE_MINUTES = 60 * 24] and [timedelta(minutes=10)],
    in microseconds. *)
Definition ACCESS_TOKEN_EXPIRE : timedelta := 60 * 24 * 60 * 1000000.

Definition OTP_LIFETIME : timedelta := 10 * 60 * 1000000.

(** [verify_password], [get_password_hash] *)
Definition verify_password (env : AuthEnv) (plain_password hashed_password : string) : bool :=
  pwd_context_verify env plain_password hashed_password.

Definition get_password_hash (env : AuthEnv) (password : string) : string :=
  pwd_context_hash env password.

(** [dict.update({k: v})] and [dict.get(k)] on a dict kept in insertion
    order. *)
Fixpoint dict_update (k : string) (v : Json) (d : list (string * Json)) : list (string * Json) :=
  match d with
  | [] => [(k, v)]
  | (k', v') :: rest =>
      if String.eqb k' k then (k, v) :: rest else (k', v') :: dict_update k v rest
  end.

Fixpoint dict_get (k : string) (d : list (string * Json)) : option Json :=
  match d with
  | [] => None
  | (k', v) :: rest => if String.eqb k' k then Some v else dict_get k rest
  end.

(** [create_access_token(data)], with the default lifetime; [now] is
    [datetime.utcnow()]. *)
Definition create_access_token (env : AuthEnv) (now : datetime)
    (data : list (string * Json)) : string :=
  let to_encode := data in
  let expire := now + ACCESS_TOKEN_EXPIRE in
  jwt_encode env (dict_update "exp" (JInt expire) to_encode).

(** [generate_otp]: [str(random.randint(100000, 999999))] *)
Definition generate_otp (env : AuthEnv) : string := str_of_int (random_randint env).

(** [decode_token]: the payload, or [None] on [JWTError]; [now] is the
    clock the library checks [exp] against. *)
Definition decode_token (env : AuthEnv) (now : datetime) (token : string)
    : option (list (string * Json)) :=
  jwt_decode env now token.

(** [db.query(User).filter(User.email == email).first()] *)
Definition query_user_by_email (email : string) (rows : list User.t) : option User.t :=
  find (fun u => String.eqb (User.email u) email) rows.

(** [UPDATE users SET ... WHERE id = ?] *)
Definition update_user_where_id (pk : Z) (f : User.t -> User.t) (rows : list User.t)
    : list User.t :=
  map (fun u => if User.id u =? pk then f u else u) rows.

(** [user.otp_code = otp; user.otp_expires_at = expires] *)
Definition set_otp (otp : option string) (expires : option datetime) (u : User.t) : User.t :=
  User.mk (User.id u) (User.name u) (User.email u) (User.phone u) (User.password_hash u)
          (User.role u) otp expires (User.is_verified u) (User.created_at u).

(** [user.is_verified = v] *)
Definition set_is_verified (v : Z) (u : User.t) : User.t :=
  User.mk (User.id u) (User.name u) (User.email u) (User.phone u) (User.password_hash u)
          (User.role u) (User.otp_code u) (User.otp_expires_at u) v (User.created_at u).

(** [UserResponse.model_validate(user)] *)
Definition UserResponse_model_validate (u : User.t) : UserResponse.t :=
  UserResponse.mk (User.id u) (User.name u) (User.email u) (User.phone u)
                  (User.role u) (User.is_verified u) (User.created_at u).

(** [user.otp_code != otp_data.otp], negated. *)
Definition otp_code_equals (code : option string) (otp : string) : bool :=
  match code with
  | Some c => String.eqb c otp
  | None => false
  end.

(** The token and response built at the end of [verify_otp] and
    [login_verify]. *)
Definition token_for (env : AuthEnv) (now : datetime) (user : User.t) : Token.t :=
  let access_token :=
    create_access_token env now
      [ ("sub", JStr (User.email user));
        ("role", JStr (UserRole_value (User.role user))) ] in
  Token.mk access_token "bearer" (UserResponse_model_validate user).

(** [register]; [now] is [datetime.utcnow()], also taken by the column
    default of [created_at].  When the commit fails the user is rolled
    back, but the id drawn from the sequence stays consumed if the INSERT
    had been flushed. *)
Definition register (env : AuthEnv) (now : datetime) (user_data : UserCreate.t)
    (w : AuthWorld) : AuthOutcome MessageResponse.t * AuthWorld :=
  match query_user_by_email (UserCreate.email user_data) (users w) with
  | Some existing_user =>
      (AuthRaise (AuthHTTPException 400 "Email already registered"), w)
  | None =>
      let otp := generate_otp env in
      let otp_expires := now + OTP_LIFETIME in
      let db_user :=
        User.mk (next_user_id w)
                (UserCreate.name user_data)
                (UserCreate.email user_data)
                (UserCreate.phone user_data)
                (get_password_hash env (UserCreate.password user_data))
                (UserCreate.role user_data)
                (Some otp) (Some otp_expires) 0 now in
      if auth_commit_ok env then
        (AuthReturn
           (MessageResponse.mk "Registration successful. Please check your email for OTP."
                               (Some (UserCreate.email user_data))),
         mkAuthWorld (users w ++ [db_user]) (next_user_id w + 1)
                     (background_tasks w
                      ++ [mkOtpMail (UserCreate.email user_data) otp
                                    (UserCreate.name user_data)]))
      else if auth_flushed_before_failure env then
        (AuthRaise AuthOperationalError,
         mkAuthWorld (users w) (next_user_id w + 1) (background_tasks w))
      else (AuthRaise AuthOperationalError, w)
  end.

(** The shared body of [verify_otp] and [login_verify]: the three checks,
    then the update [change], the commit, the refresh and the token. *)
Definition check_otp_then (change : User.t -> User.t) (env : AuthEnv) (now : datetime)
    (otp_data : OTPVerify.t) (w : AuthWorld) : AuthOutcome Token.t * AuthWorld :=
  match query_user_by_email (OTPVerify.email otp_data) (users w) with
  | None => (AuthRaise (AuthHTTPException 404 "User not found"), w)
  | Some user =>
      if negb (otp_code_equals (User.otp_code user) (OTPVerify.otp otp_data)) then
        (AuthRaise (AuthHTTPException 400 "Invalid OTP"), w)
      else
        match User.otp_expires_at user with
        | None => (AuthRaise AuthTypeError, w)
        | Some expires =>
            if expires <? now then
              (AuthRaise (AuthHTTPException 400 "OTP expired"), w)
            else if auth_commit_ok env then
              let rows := update_user_where_id (User.id user) change (users w) in
              match find (fun u => User.id u =? User.id user) rows with
              | None => (AuthRaise AuthInvalidRequestError,
                         mkAuthWorld rows (next_user_id w) (background_tasks w))
              | Some user' =>
                  (AuthReturn (token_for env now user'),
                   mkAuthWorld rows (next_user_id w) (background_tasks w))
              end
            else (AuthRaise AuthOperationalError, w)
        end
  end.

(** [verify_otp]: marks the user verified and clears the OTP. *)
Definition verify_otp : AuthEnv -> datetime -> OTPVerify.t -> AuthWorld
                        -> AuthOutcome Token.t * AuthWorld :=
  check_otp_then (fun u => set_otp None None (set_is_verified 1 u)).

(** [login_verify]: clears the OTP. *)
Definition login_verify : AuthEnv -> datetime -> OTPVerify.t -> AuthWorld
                          -> AuthOutcome Token.t * AuthWorld :=
  check_otp_then (set_otp None None).

(** The tail shared by [login] and [resend_otp]: a new OTP is stored,
    committed and queued for sending. *)
Definition issue_otp (message : string) (env : AuthEnv) (now : datetime) (user : User.t)
    (w : AuthWorld) : AuthOutcome MessageResponse.t * AuthWorld :=
  let otp := generate_otp env in
  if auth_commit_ok env then
    (AuthReturn (MessageResponse.mk message (Some (User.email user))),
     mkAuthWorld (update_user_where_id (User.id user)
                    (set_otp (Some otp) (Some (now + OTP_LIFETIME))) (users w))
                 (next_user_id w)
                 (background_tasks w ++ [mkOtpMail (User.email user) otp (User.name user)]))
  else (AuthRaise AuthOperationalError, w).

(** [login] *)
Definition login (env : AuthEnv) (now : datetime) (login_data : UserLogin.t)
    (w : AuthWorld) : AuthOutcome MessageResponse.t * AuthWorld :=
  match query_user_by_email (UserLogin.email login_data) (users w) with
  | None => (AuthRaise (AuthHTTPException 401 "Invalid email or password"), w)
  | Some user =>
      if negb (verify_password env (UserLogin.password login_data) (User.password_hash user))
      then (AuthRaise (AuthHTTPException 401 "Invalid email or password"), w)
      else if User.is_verified user =? 0 then
        (AuthRaise (AuthHTTPException 400 "Account not verified. Please verify OTP first."), w)
      else issue_otp "OTP sent to your email." env now user w
  end.

(** [resend_otp] *)
Definition resend_otp (env : AuthEnv) (now : datetime) (resend_data : OTPResend.t)
    (w : AuthWorld) : AuthOutcome MessageResponse.t * AuthWorld :=
  match query_user_by_email (OTPResend.email resend_data) (users w) with
  | None => (AuthRaise (AuthHTTPException 404 "User not found"), w)
  | Some user => issue_otp "OTP resent to your email." env now user w
  end.

(** [get_current_user]; an empty payload is falsy, and a [sub] that is
    missing or not a string matches no email. *)
Definition get_current_user (env : AuthEnv) (now : datetime) (token : string)
    (w : AuthWorld) : AuthOutcome UserResponse.t * AuthWorld :=
  match decode_token env now token with
  | None | Some [] => (AuthRaise (AuthHTTPException 401 "Invalid or expired token"), w)
  | Some payload =>
      match dict_get "sub" payload with
      | Some (JStr email) =>
          match query_user_by_email email (users w) with
          | None => (AuthRaise (AuthHTTPException 404 "User not found"), w)
          | Some user => (AuthReturn (UserResponse_model_validate user), w)
          end
      | _ => (AuthRaise (AuthHTTPException 404 "User not found"), w)
      end
  end.

(** Sequences of state-changing requests to the auth router. *)
Inductive AuthRequest :=
| PostRegister (now : datetime) (user_data : UserCreate.t)
| PostVerifyOtp (now : datetime) (otp_data : OTPVerify.t)
| PostLogin (now : datetime) (login_data : UserLogin.t)
| PostLoginVerify (now : datetime) (otp_data : OTPVerify.t)
| PostResendOtp (now : datetime) (resend_data : OTPResend.t).

Definition auth_serve (env : AuthEnv) (r : AuthRequest) (w : AuthWorld) : AuthWorld :=
  match r with
  | PostRegister now user_data => snd (register env now user_data w)
  | PostVerifyOtp now otp_data => snd (verify_otp env now otp_data w)
  | PostLogin now login_data => snd (login env now login_data w)
  | PostLoginVerify now otp_data => snd (login_verify env now otp_data w)
  | PostResendOtp now resend_data => snd (resend_otp env now resend_data w)
  end.

Fixpoint auth_serve_all (reqs : list (AuthEnv * AuthRequest)) (w : AuthWorld) : AuthWorld :=
  match reqs with
  | [] => w
  | (env, r) :: rest => auth_serve_all rest (auth_serve env r w)
  end.

Definition empty_auth_world : AuthWorld := mkAuthWorld [] 1 [].

(** What a handler raised, if anything. *)
Definition raised {A} (r : AuthOutcome A * AuthWorld) : option AuthExn :=
  match fst r with
  | AuthReturn _ => None
  | AuthRaise e => Some e
  end.

(** The two OTP columns are set together or not at all. *)
Definition otp_columns_paired (u : User.t) : Prop :=
  User.otp_code u = None <-> User.otp_expires_at u = None.

(** What holds of every row the handlers write. *)
Definition well_formed_user (u : User.t) : Prop :=
  otp_columns_paired u /\ (User.is_verified u = 0 \/ User.is_verified u = 1).

(** The users table as the handlers keep it. *)
Definition well_formed_users (w : AuthWorld) : Prop :=
  NoDup (map User.email (users w)) /\
  NoDup (map User.id (users w)) /\
  Forall (fun u => User.id u < next_user_id w) (users w) /\
  Forall well_formed_user (users w).

(** A toy environment for examples: the OTP is 123456, a password is
    stored as it is and verified by comparison, and every token decodes
    to one fixed payload. *)
Definition toy_auth_env : AuthEnv :=
  mkAuthEnv true 123456 (fun p => p) String.eqb
            (fun _ => "token")
            (fun _ _ => Some [ ("sub", JStr "john@example.com");
                               ("role", JStr "VOLUNTEER");
                               ("exp", JInt ACCESS_TOKEN_EXPIRE) ])
            false.

Definition john : UserCreate.t :=
  UserCreate.mk "John Doe" "john@example.com" "+919876543210" "password123" VOLUNTEER.


(** What serving [r] raises, if anything. *)
Definition auth_raised (env : AuthEnv) (r : AuthRequest) (w : AuthWorld) : option AuthExn :=
  match r with
  | PostRegister now user_data => raised (register env now user_data w)
  | PostVerifyOtp now otp_data => raised (verify_otp env now otp_data w)
  | PostLogin now login_data => raised (login env now login_data w)
  | PostLoginVerify now otp_data => raised (login_verify env now otp_data w)
  | PostResendOtp now resend_data => raised (resend_otp env now resend_data w)
  end.


(** John as stored once registered at time 0 and verified. *)
Definition john_verified : User.t :=
  User.mk 1 "John Doe" "john@example.com" "+919876543210" "password123" VOLUNTEER
          None None 1 0.


(** The decimal numeral with digit [x] in front of [d]. *)
Definition digit (x : N) (d : Decimal.uint) : Decimal.uint :=
  match x with
  | 0 => Decimal.D0 d | 1 => Decimal.D1 d | 2 => Decimal.D2 d | 3 => Decimal.D3 d
  | 4 => Decimal.D4 d | 5 => Decimal.D5 d | 6 => Decimal.D6 d | 7 => Decimal.D7 d
  | 8 => Decimal.D8 d | _ => Decimal.D9 d
  end%N.


(** The sign a float carries, for those that carry one. *)
Definition float_sign_is (s : bool) (x : spec_float) : Prop :=
  match x with
  | S754_zero _ | S754_nan => True
  | S754_infinity s' | S754_finite s' _ _ => s' = s
  end.

(** The float quotient [(expires_at - now).total_seconds() / 3600]. *)
Definition time_diff_hours (now : datetime) (donation : Donation) : spec_float :=
  float_div (total_seconds (expires_at donation - now)) (float_of_int 3600).


(* ====================================================================== *)
(** * Properties *)

(** ** The connection manager *)

Ltac unfold_py :=
  unfold websocket_endpoint_closed, disconnect, connect, broadcast,
         active_connections_remove, send_json,
         db_commit, db_refresh, try_except, bind, ret, raise, get_world, log,
         set_active_connections, with_connections, with_trace in *.

Lemma list_remove_absent (x : WebSocket) (l : list WebSocket) :
  ~ In x l -> list_remove x l = None.
Proof.
  induction l as [|y l IH]; simpl; intros Hx; [reflexivity|].
  destruct (Nat.eqb_spec y x) as [->|_].
  - exfalso. apply Hx. now left.
  - rewrite IH; [reflexivity|]. intros H. apply Hx. now right.
Qed.

Lemma list_remove_middle (x : WebSocket) (pre l : list WebSocket) :
  ~ In x pre -> list_remove x (pre ++ x :: l) = Some (pre ++ l).
Proof.
  induction pre as [|y pre IH]; simpl; intros Hx.
  - now rewrite Nat.eqb_refl.
  - destruct (Nat.eqb_spec y x) as [->|_].
    + exfalso. apply Hx. now left.
    + rewrite IH; [reflexivity|]. intros H. apply Hx. now right.
Qed.

(** Taking the failing connections out one by one leaves the others, in
    their order, even when a connection is listed more than once. *)
Lemma remove_each_failing (ok : WebSocket -> bool) (l pre : list WebSocket) :
  forallb ok pre = true ->
  remove_each (filter (fun c => negb (ok c)) l) (pre ++ l) = Some (pre ++ filter ok l).
Proof.
  revert pre. induction l as [|c l IH]; intros pre Hpre; simpl.
  - reflexivity.
  - destruct (ok c) eqn:Hc; simpl.
    + replace (pre ++ c :: l) with ((pre ++ [c]) ++ l) by now rewrite <- app_assoc.
      rewrite IH.
      * now rewrite <- app_assoc.
      * rewrite forallb_app, Hpre. simpl. now rewrite Hc.
    + rewrite list_remove_middle.
      * now apply IH.
      * intros Hin. rewrite forallb_forall in Hpre.
        apply Hpre in Hin. congruence.
Qed.

Lemma broadcast_send_run (env : Env) (message : Json) (conns dead : list WebSocket) (w : World) :
  broadcast_send env message conns dead w =
  (Return (dead ++ filter (fun c => negb (send_json_ok env c message)) conns),
   with_trace w (trace w ++ map (send_effect env message) conns)).
Proof.
  revert dead w. induction conns as [|c conns IH]; intros dead w; simpl.
  - unfold_py. rewrite !app_nil_r. now destruct w.
  - unfold bind at 1. unfold try_except, send_json, send_effect.
    destruct (send_json_ok env c message) eqn:Hc; unfold_py; simpl;
      rewrite IH; unfold with_trace; simpl; rewrite <- !app_assoc; reflexivity.
Qed.

Lemma broadcast_cleanup_run (dead : list WebSocket) (w : World) (l : list WebSocket) :
  remove_each dead (active_connections w) = Some l ->
  broadcast_cleanup dead w = (Return tt, with_connections w l).
Proof.
  revert w. induction dead as [|c dead IH]; intros w; simpl.
  - intros [= <-]. unfold_py. now destruct w.
  - destruct (list_remove c (active_connections w)) as [l'|] eqn:Hc; [|discriminate].
    intros Hrest. unfold_py. rewrite Hc.
    rewrite (IH (mkWorld (donations w) (next_id w) l' (trace w)) Hrest).
    reflexivity.
Qed.

(** One broadcast pass, in closed form: it returns normally, keeps exactly
    the connections whose send worked, and attempts one send per
    connection. *)
Lemma broadcast_run (env : Env) (message : Json) (w : World) :
  broadcast env message w =
  (Return tt,
   mkWorld (donations w) (next_id w)
           (filter (fun c => send_json_ok env c message) (active_connections w))
           (trace w ++ broadcast_effects env message (active_connections w))).
Proof.
  unfold broadcast. unfold bind at 1. unfold log. unfold bind at 1. unfold get_world.
  unfold bind. rewrite broadcast_send_run. simpl.
  erewrite broadcast_cleanup_run.
  - unfold with_connections, with_trace, broadcast_effects. simpl.
    rewrite <- app_assoc. reflexivity.
  - simpl. apply (remove_each_failing (fun c => send_json_ok env c message) _ []).
    reflexivity.
Qed.

Lemma attempted_app (tr1 tr2 : list Effect) :
  attempted (tr1 ++ tr2) = attempted tr1 ++ attempted tr2.
Proof.
  induction tr1 as [|e tr1 IH]; simpl; [reflexivity|].
  destruct e; simpl; now rewrite IH.
Qed.

Lemma attempted_sends (env : Env) (message : Json) (conns : list WebSocket) :
  attempted (map (send_effect env message) conns) = conns.
Proof.
  induction conns as [|c conns IH]; simpl; [reflexivity|].
  unfold send_effect at 1. destruct (send_json_ok env c message); simpl; now rewrite IH.
Qed.

Lemma received_app (c : WebSocket) (tr1 tr2 : list Effect) :
  received c (tr1 ++ tr2) = received c tr1 ++ received c tr2.
Proof.
  induction tr1 as [|e tr1 IH]; simpl; [reflexivity|].
  destruct e; simpl; try apply IH.
  destruct (Nat.eqb connection c); simpl; now rewrite IH.
Qed.

Lemma received_sends (env : Env) (message : Json) (c : WebSocket) (conns : list WebSocket) :
  In c conns -> send_json_ok env c message = true ->
  In message (received c (map (send_effect env message) conns)).
Proof.
  induction conns as [|c' conns IH]; simpl; intros Hin Hok; [contradiction|].
  unfold send_effect at 1.
  destruct (Nat.eqb_spec c' c) as [->|Hne].
  - rewrite Hok. simpl. rewrite Nat.eqb_refl. now left.
  - destruct Hin as [->|Hin]; [congruence|].
    destruct (send_json_ok env c' message); simpl.
    + destruct (Nat.eqb_spec c' c); [congruence|]. now apply IH.
    + now apply IH.
Qed.

Lemma filter_length_split {A} (p : A -> bool) (l : list A) :
  (List.length (filter p l) + List.length (filter (fun x => negb (p x)) l) = List.length l)%nat.
Proof.
  induction l as [|x l IH]; simpl; [reflexivity|].
  destruct (p x); simpl; lia.
Qed.

Lemma broadcasts_app (tr1 tr2 : list Effect) :
  broadcasts (tr1 ++ tr2) = broadcasts tr1 ++ broadcasts tr2.
Proof.
  induction tr1 as [|e tr1 IH]; simpl; [reflexivity|].
  destruct e; simpl; now rewrite IH.
Qed.

Lemma broadcasts_sends (env : Env) (message : Json) (conns : list WebSocket) :
  broadcasts (map (send_effect env message) conns) = [].
Proof.
  induction conns as [|c conns IH]; simpl; [reflexivity|].
  unfold send_effect at 1. now destruct (send_json_ok env c message).
Qed.

Lemma broadcasts_broadcast_effects (env : Env) (message : Json) (conns : list WebSocket) :
  broadcasts (broadcast_effects env message conns) = [message].
Proof.
  unfold broadcast_effects. simpl. now rewrite broadcasts_sends.
Qed.

(** *** Under a schedule *)

Lemma broadcast_interleaved_quiet (env : Env) (message : Json) (w : World) :
  broadcast_interleaved env [] message w = broadcast env message w.
Proof. reflexivity. Qed.

Lemma run_others_keeps (others : list OtherTask) (w : World) :
  donations (run_others others w) = donations w /\
  next_id (run_others others w) = next_id w /\
  trace (run_others others w) = trace w.
Proof.
  unfold run_others. revert w. induction others as [|t others IH]; intros w; cbn [fold_left].
  - repeat split.
  - destruct (IH (run_other w t)) as [Hd [Hn Ht]]. rewrite Hd, Hn, Ht.
    destruct t as [c|c]; cbn [run_other].
    + repeat split.
    + unfold disconnect, active_connections_remove, bind, get_world, raise,
             set_active_connections.
      destruct (list_remove c (active_connections w)); repeat split.
Qed.

Lemma only_sends_app (tr1 tr2 : list Effect) :
  only_sends tr1 -> only_sends tr2 -> only_sends (tr1 ++ tr2).
Proof. unfold only_sends. intros H1 H2. apply Forall_app. now split. Qed.

Lemma only_sends_map (env : Env) (message : Json) (conns : list WebSocket) :
  only_sends (map (send_effect env message) conns).
Proof.
  unfold only_sends. apply Forall_map, Forall_forall. intros c _.
  unfold send_effect. now destruct (send_json_ok env c message).
Qed.

Lemma only_sends_broadcasts (tr : list Effect) : only_sends tr -> broadcasts tr = [].
Proof.
  unfold only_sends. induction 1 as [|e tr He _ IH]; [reflexivity|].
  destruct e; cbn [broadcasts]; try contradiction; exact IH.
Qed.

Lemma guarded_send_run (env : Env) (message : Json) (c : WebSocket)
    (dead : list WebSocket) (w : World) :
  try_except (send_json env c message ;; ret dead) (fun _ => ret (dead ++ [c])) w
  = (Return (if send_json_ok env c message then dead else dead ++ [c]),
     with_trace w (trace w ++ [send_effect env message c])).
Proof.
  unfold try_except, send_json, send_effect, bind, log, raise, ret, with_trace.
  now destruct (send_json_ok env c message).
Qed.

(** The send loop never raises, whatever the schedule, and touches
    neither the table nor the sequence; it only adds send attempts to the
    trace. *)
Lemma broadcast_send_interleaved_run (env : Env) (message : Json)
    (schedule : list (list OtherTask)) (i : nat) (dead : list WebSocket) (w : World) :
  exists dead' w' sends,
    broadcast_send_interleaved env message schedule i dead w = (Return dead', w') /\
    donations w' = donations w /\ next_id w' = next_id w /\
    trace w' = trace w ++ sends /\ only_sends sends.
Proof.
  revert i dead w. induction schedule as [|others rest IH]; intros i dead w.
  - cbn [broadcast_send_interleaved]. rewrite broadcast_send_run.
    do 3 eexists. split; [reflexivity|]. cbn [with_trace donations next_id trace].
    repeat split. apply only_sends_map.
  - cbn [broadcast_send_interleaved].
    destruct (nth_error (active_connections w) i) as [c|].
    + destruct (run_others_keeps others w) as [Hd [Hn Ht]].
      set (w1 := run_others others w) in *.
      unfold bind at 1. rewrite guarded_send_run.
      destruct (IH (S i) (if send_json_ok env c message then dead else dead ++ [c])
                  (with_trace w1 (trace w1 ++ [send_effect env message c])))
        as [dead' [w' [sends [Hrun [Hd' [Hn' [Ht' Hs]]]]]]].
      rewrite Hrun. exists dead', w', (send_effect env message c :: sends).
      cbn [with_trace donations next_id trace] in Hd', Hn', Ht'.
      split; [reflexivity|]. rewrite Hd', Hn', Ht', Hd, Hn, Ht, <- app_assoc.
      repeat split. constructor; [|exact Hs].
      unfold send_effect. now destruct (send_json_ok env c message).
    + exists dead, w, []. rewrite app_nil_r. repeat split. constructor.
Qed.

(** The clean-up loop returns or raises [ValueError]; either way it
    touches only the live list. *)
Lemma broadcast_cleanup_outcome (dead : list WebSocket) (w : World) :
  exists r w',
    broadcast_cleanup dead w = (r, w') /\
    (r = Return tt \/ r = Raise ValueError) /\
    donations w' = donations w /\ next_id w' = next_id w /\ trace w' = trace w.
Proof.
  revert w. induction dead as [|c dead IH]; intros w; cbn [broadcast_cleanup].
  - do 2 eexists. split; [reflexivity|]. repeat split. now left.
  - unfold bind at 1, active_connections_remove, bind, get_world, raise,
           set_active_connections.
    destruct (list_remove c (active_connections w)) as [l|].
    + destruct (IH (mkWorld (donations w) (next_id w) l (trace w)))
        as [r [w' [Hrun [Hr [Hd [Hn Ht]]]]]].
      rewrite Hrun. exists r, w'. cbn [donations next_id trace] in Hd, Hn, Ht.
      repeat split; assumption.
    + do 2 eexists. split; [reflexivity|]. repeat split. now right.
Qed.

(** A broadcast under any schedule: the event is handed over once, then
    come send attempts only; the table is untouched; the caller gets a
    normal return or the [ValueError] of the clean-up. *)
Lemma broadcast_interleaved_run (env : Env) (schedule : list (list OtherTask))
    (message : Json) (w : World) :
  exists r w' sends,
    broadcast_interleaved env schedule message w = (r, w') /\
    (r = Return tt \/ r = Raise ValueError) /\
    donations w' = donations w /\ next_id w' = next_id w /\
    trace w' = trace w ++ EvBroadcast message :: sends /\ only_sends sends.
Proof.
  unfold broadcast_interleaved. unfold bind at 1, log. unfold bind.
  destruct (broadcast_send_interleaved_run env message schedule 0 []
              (mkWorld (donations w) (next_id w) (active_connections w)
                       (trace w ++ [EvBroadcast message])))
    as [dead [w1 [sends [Hrun [Hd [Hn [Ht Hs]]]]]]].
  rewrite Hrun. cbn [donations next_id trace] in Hd, Hn, Ht.
  destruct (broadcast_cleanup_outcome dead w1) as [r [w2 [Hc [Hr [Hd2 [Hn2 Ht2]]]]]].
  rewrite Hc. exists r, w2, sends. split.
  - destruct Hr as [-> | ->]; reflexivity.
  - rewrite Hd2, Hn2, Ht2, Hd, Hn, Ht, <- app_assoc. repeat split; assumption.
Qed.

(** When no other task runs during the pass: a broadcast over the N
    registered connections, k of which fail on send, returns normally to
    its caller, attempts a send on every one of the N connections in turn
    whatever happened to the others, removes every failing connection
    within the same pass, and so leaves exactly the N - k connections
    whose send worked, each of which has received the message. *)
Theorem broadcast_isolates_and_prunes_failures (env : Env) (message : Json) (w : World) :
  let conns := active_connections w in
  let failed := filter (fun c => negb (send_json_ok env c message)) conns in
  let w' := snd (broadcast env message w) in
  fst (broadcast env message w) = Return tt /\
  attempted (trace w') = attempted (trace w) ++ conns /\
  active_connections w' = filter (fun c => send_json_ok env c message) conns /\
  List.length (active_connections w') = (List.length conns - List.length failed)%nat /\
  (forall c, In c failed -> ~ In c (active_connections w')) /\
  (forall c, In c (active_connections w') -> In message (received c (trace w'))) /\
  donations w' = donations w.
Proof.
  intros conns failed w'. subst w'. rewrite broadcast_run. simpl.
  fold conns. repeat split.
  - rewrite attempted_app. unfold broadcast_effects. simpl.
    now rewrite attempted_sends.
  - pose proof (filter_length_split (fun c => send_json_ok env c message) conns).
    subst failed. lia.
  - intros c Hc Hin. subst failed.
    apply filter_In in Hc. apply filter_In in Hin.
    destruct Hc as [_ Hc], Hin as [_ Hin]. rewrite Hin in Hc. discriminate.
  - intros c Hin. apply filter_In in Hin. destruct Hin as [Hin Hok].
    rewrite received_app. apply in_or_app. right.
    unfold broadcast_effects. simpl. now apply received_sends.
Qed.

(** C2 fails when a task interleaves.  Three clients are registered and
    the transport of client 2 is broken.  While the pass awaits the send to
    client 2, the task of client 2 sees its connection close and
    unregisters it.  The loop then reads position 2 of a list of two and
    stops: client 3 is never sent the event, though it stays registered.
    The clean-up removes client 2 a second time and its [ValueError]
    leaves [broadcast]; [update_donation_status] has by then stored the
    status and fails with that error.  With no other task running, the
    same pass reaches clients 1 and 3, prunes client 2 and returns. *)
Theorem broadcast_race_raises_and_skips :
  let env := broken_socket 2%nat in
  let schedule := [[]; [OtherDisconnect 2%nat]] in
  let message := status_update_event 1 ASSIGNED in
  let w := mkWorld [sample_row 1 AVAILABLE one_hour] 2 [1; 2; 3]%nat [] in
  let r := broadcast_interleaved env schedule message w in
  let u := update_donation_status_interleaved env schedule 1 ASSIGNED w in
  fst r = Raise ValueError /\
  attempted (trace (snd r)) = [1; 2]%nat /\
  received 3%nat (trace (snd r)) = [] /\
  active_connections (snd r) = [1; 3]%nat /\
  fst u = Raise ValueError /\
  map status (donations (snd u)) = [ASSIGNED] /\
  broadcast env message w
    = (Return tt,
       mkWorld (donations w) 2 [1; 3]%nat
               [EvBroadcast message; EvSent 1%nat message;
                EvSendFailed 2%nat message; EvSent 3%nat message]).
Proof. vm_compute. repeat split. Qed.

(** C10.  [disconnect] on a connection that is not registered raises
    [ValueError] and changes nothing; in particular, once a broadcast has
    pruned a connection whose send failed, the [disconnect] made by that
    connection's own task on closure raises. *)
Theorem disconnect_of_unregistered_raises (env : Env) (message : Json) (w : World)
    (websocket : WebSocket) :
  (~ In websocket (active_connections w) ->
     disconnect websocket w = (Raise ValueError, w)) /\
  (In websocket (active_connections w) ->
   send_json_ok env websocket message = false ->
     let w' := snd (broadcast env message w) in
     fst (broadcast env message w) = Return tt /\
     websocket_endpoint_closed websocket w' = (Raise ValueError, w')).
Proof.
  assert (Habsent : forall v, ~ In websocket (active_connections v) ->
                              disconnect websocket v = (Raise ValueError, v)).
  { intros v Hv. unfold_py. cbv beta. now rewrite (list_remove_absent _ _ Hv). }
  split; [apply Habsent|].
  intros Hin Hfail w'. subst w'. rewrite broadcast_run. simpl. split; [reflexivity|].
  unfold websocket_endpoint_closed. apply Habsent. simpl.
  intros H. apply filter_In in H. destruct H as [_ H]. congruence.
Qed.

(** C10, on three connections of which the second has a broken transport. *)
Lemma disconnect_of_unregistered_raises_witness :
  disconnect 9%nat (initial_world [1; 2; 3]%nat)
    = (Raise ValueError, initial_world [1; 2; 3]%nat) /\
  websocket_endpoint_closed 2%nat
      (snd (broadcast (broken_socket 2%nat) JNull (initial_world [1; 2; 3]%nat)))
    = (Raise ValueError,
       snd (broadcast (broken_socket 2%nat) JNull (initial_world [1; 2; 3]%nat))).
Proof.
  split.
  - apply (proj1 (disconnect_of_unregistered_raises all_up JNull
                    (initial_world [1; 2; 3]%nat) 9%nat)).
    simpl. intros [H|[H|[H|H]]]; try discriminate H; exact H.
  - apply (proj2 (disconnect_of_unregistered_raises (broken_socket 2%nat) JNull
                    (initial_world [1; 2; 3]%nat) 2%nat)).
    + simpl. right. left. reflexivity.
    + reflexivity.
Defined.

(** ** Closed forms of the handlers *)

Lemma find_app_last {A} (p : A -> bool) (l : list A) (x : A) :
  p x = true ->
  find p (l ++ [x]) = Some (match find p l with Some y => y | None => x end).
Proof.
  intros Hx. induction l as [|y l IH]; simpl.
  - now rewrite Hx.
  - destruct (p y); [reflexivity|apply IH].
Qed.

Lemma find_map_stable {A} (p : A -> bool) (f : A -> A) (l : list A) :
  (forall x, p (f x) = p x) ->
  find p (map f l) = option_map f (find p l).
Proof.
  intros Hp. induction l as [|x l IH]; simpl; [reflexivity|].
  rewrite Hp. destruct (p x); [reflexivity|apply IH].
Qed.

Lemma create_donation_run (env : Env) (now : datetime) (body : DonationCreate.t) (w : World) :
  create_donation env now body w =
  if commit_ok env then
    let row := new_Donation (next_id w) now body in
    let message := new_donation_event (refreshed w row) in
    (Return (refreshed w row),
     mkWorld (donations w ++ [row]) (next_id w + 1)
             (filter (fun c => send_json_ok env c message) (active_connections w))
             (trace w ++ EvCommit :: broadcast_effects env message (active_connections w)))
  else (Raise OperationalError, after_failed_commit env (next_id w + 1) w).
Proof.
  unfold create_donation, db_commit, db_refresh, bind, get_world, raise, ret,
         after_failed_commit.
  destruct (commit_ok env); [|now destruct (flushed_before_failure env)].
  cbn [donations next_id active_connections trace].
  unfold query_first_by_id.
  rewrite find_app_last by (cbn; apply Z.eqb_refl).
  rewrite broadcast_run. cbn [donations next_id active_connections trace].
  unfold refreshed, query_first_by_id. cbn [id new_Donation].
  rewrite <- app_assoc. reflexivity.
Qed.

Lemma after_failed_commit_keeps (env : Env) (n : Z) (w : World) :
  donations (after_failed_commit env n w) = donations w /\
  active_connections (after_failed_commit env n w) = active_connections w /\
  trace (after_failed_commit env n w) = trace w /\
  (next_id (after_failed_commit env n w) = n \/
   next_id (after_failed_commit env n w) = next_id w).
Proof.
  unfold after_failed_commit. destruct (flushed_before_failure env); cbn; tauto.
Qed.

Lemma update_donation_status_run (env : Env) (donation_id : Z)
    (new_status : DonationStatus) (w : World) :
  update_donation_status env donation_id new_status w =
  match query_first_by_id donation_id (donations w) with
  | None => (Raise (HTTPException 404 "Donation not found"), w)
  | Some donation =>
      if commit_ok env then
        let message := status_update_event (id donation) new_status in
        (Return (status_updated donation_id new_status),
         mkWorld (update_status_where_id (id donation) new_status (donations w))
                 (next_id w)
                 (filter (fun c => send_json_ok env c message) (active_connections w))
                 (trace w ++ EvCommit :: broadcast_effects env message (active_connections w)))
      else (Raise OperationalError, w)
  end.
Proof.
  unfold update_donation_status, bind at 1, get_world.
  destruct (query_first_by_id donation_id (donations w)) as [donation|]; [|reflexivity].
  unfold db_commit, bind, raise, ret.
  destruct (commit_ok env);
    [|destruct (flushed_before_failure env); [now destruct w|reflexivity]].
  rewrite broadcast_run. cbn [donations next_id active_connections trace].
  rewrite <- app_assoc. reflexivity.
Qed.

Lemma cleanup_expired_donations_run (env : Env) (now : datetime) (w : World) :
  cleanup_expired_donations env now w =
  if commit_ok env then
    (Return (cleanup_message
               (Z.of_nat (List.length (filter (fun d => expires_at d <? now) (donations w))))),
     mkWorld (filter (fun d => negb (expires_at d <? now)) (donations w))
             (next_id w) (active_connections w) (trace w ++ [EvCommit]))
  else (Raise OperationalError, w).
Proof.
  unfold cleanup_expired_donations, db_commit, bind, get_world, raise, ret.
  destruct (commit_ok env); [reflexivity|].
  destruct (flushed_before_failure env); [now destruct w|reflexivity].
Qed.

Lemma query_first_by_id_id (donation_id : Z) (rows : list Donation) (d : Donation) :
  query_first_by_id donation_id rows = Some d -> id d = donation_id /\ In d rows.
Proof.
  unfold query_first_by_id. intros H. apply find_some in H.
  destruct H as [Hin Hid]. split; [now apply Z.eqb_eq|exact Hin].
Qed.

Lemma query_first_by_id_absent (pk : Z) (rows : list Donation) :
  Forall (fun d => id d < pk) rows -> query_first_by_id pk rows = None.
Proof.
  unfold query_first_by_id. induction 1 as [|d rows Hd _ IH]; simpl; [reflexivity|].
  destruct (Z.eqb_spec (id d) pk); [lia|exact IH].
Qed.

Lemma refreshed_fresh (w : World) (now : datetime) (body : DonationCreate.t) :
  keys_below_sequence w ->
  refreshed w (new_Donation (next_id w) now body) = new_Donation (next_id w) now body.
Proof.
  intros Hw. unfold refreshed. cbn [id new_Donation].
  now rewrite (query_first_by_id_absent _ _ Hw).
Qed.

Lemma refreshed_stored (w : World) (row : Donation) :
  In (refreshed w row) (donations w ++ [row]).
Proof.
  unfold refreshed. apply in_or_app.
  destruct (query_first_by_id (id row) (donations w)) as [d|] eqn:Hd.
  - left. now apply query_first_by_id_id in Hd.
  - right. now left.
Qed.

(** The sequence stays above every primary key handed out. *)
Lemma serve_keeps_keys_below_sequence (env : Env) (r : Request) (w : World) :
  keys_below_sequence w -> keys_below_sequence (serve env r w).
Proof.
  unfold keys_below_sequence. intros Hw.
  destruct r as [now body|donation_id new_status|now]; unfold serve.
  - unfold post_api_donations.
    destruct (validate_DonationCreate body); [|exact Hw].
    rewrite create_donation_run. destruct (commit_ok env).
    2:{ cbn [snd].
        destruct (after_failed_commit_keeps env (next_id w + 1) w) as [Hd [_ [_ Hn]]].
        rewrite Hd. eapply Forall_impl; [|exact Hw].
        intros d Hlt. cbv beta in Hlt |- *. destruct Hn as [Hn|Hn]; rewrite Hn; lia. }
    cbn [snd donations next_id]. apply Forall_app. split.
    + eapply Forall_impl; [|exact Hw]. intros d Hd. cbv beta in Hd |- *. lia.
    + constructor; [|constructor]. cbn [id new_Donation]. lia.
  - rewrite update_donation_status_run.
    destruct (query_first_by_id donation_id (donations w)) as [d|]; [|exact Hw].
    destruct (commit_ok env); [|exact Hw].
    cbn [snd donations next_id]. unfold update_status_where_id.
    apply Forall_map. eapply Forall_impl; [|exact Hw].
    intros x Hx. destruct (id x =? id d); exact Hx.
  - rewrite cleanup_expired_donations_run. destruct (commit_ok env); [|exact Hw].
    cbn [snd donations next_id]. apply Forall_forall. intros x Hx.
    apply filter_In in Hx. rewrite Forall_forall in Hw. now apply Hw.
Qed.

Lemma serve_all_keeps_keys_below_sequence (reqs : list (Env * Request)) (w : World) :
  keys_below_sequence w -> keys_below_sequence (serve_all reqs w).
Proof.
  revert w. induction reqs as [|[env r] reqs IH]; intros w Hw; simpl; [exact Hw|].
  apply IH. now apply serve_keeps_keys_below_sequence.
Qed.


(** *** The handlers under a schedule *)

Lemma update_donation_status_interleaved_quiet (env : Env) (donation_id : Z)
    (new_status : DonationStatus) (w : World) :
  update_donation_status_interleaved env [] donation_id new_status w
  = update_donation_status env donation_id new_status w.
Proof. reflexivity. Qed.

Lemma create_donation_interleaved_quiet (env : Env) (now : datetime)
    (body : DonationCreate.t) (w : World) :
  create_donation_interleaved env [] now body w = create_donation env now body w.
Proof. reflexivity. Qed.

Lemma update_donation_status_interleaved_run (env : Env) (schedule : list (list OtherTask))
    (donation_id : Z) (new_status : DonationStatus) (w : World) :
  exists r w' sends,
    update_donation_status_interleaved env schedule donation_id new_status w = (r, w') /\
    match query_first_by_id donation_id (donations w) with
    | None => r = Raise (HTTPException 404 "Donation not found") /\ w' = w
    | Some donation =>
        if commit_ok env then
          (r = Return (status_updated donation_id new_status) \/ r = Raise ValueError) /\
          donations w' = update_status_where_id (id donation) new_status (donations w) /\
          next_id w' = next_id w /\
          trace w' = trace w ++ EvCommit
                       :: EvBroadcast (status_update_event (id donation) new_status) :: sends /\
          only_sends sends
        else r = Raise OperationalError /\ w' = w
    end.
Proof.
  unfold update_donation_status_interleaved, bind at 1, get_world.
  destruct (query_first_by_id donation_id (donations w)) as [donation|].
  - unfold db_commit, bind at 1. destruct (commit_ok env).
    + unfold bind at 1.
      destruct (broadcast_interleaved_run env schedule
                  (status_update_event (id donation) new_status)
                  (mkWorld (update_status_where_id (id donation) new_status (donations w))
                           (next_id w) (active_connections w) (trace w ++ [EvCommit])))
        as [r [w' [sends [Hrun [Hr [Hd [Hn [Ht Hs]]]]]]]].
      rewrite Hrun. cbn [donations next_id trace] in Hd, Hn, Ht.
      destruct Hr as [-> | ->].
      * exists (Return (status_updated donation_id new_status)), w', sends.
        split; [reflexivity|]. rewrite Hd, Hn, Ht, <- app_assoc.
        repeat split; try assumption. now left.
      * exists (Raise ValueError), w', sends.
        split; [reflexivity|]. rewrite Hd, Hn, Ht, <- app_assoc.
        repeat split; try assumption. now right.
    + exists (Raise OperationalError), w, [].
      destruct (flushed_before_failure env); unfold raise; destruct w; repeat split.
  - exists (Raise (HTTPException 404 "Donation not found")), w, []. repeat split.
Qed.

Lemma create_donation_interleaved_run (env : Env) (schedule : list (list OtherTask))
    (now : datetime) (body : DonationCreate.t) (w : World) :
  let row := new_Donation (next_id w) now body in
  exists r w' sends,
    create_donation_interleaved env schedule now body w = (r, w') /\
    if commit_ok env then
      (r = Return (refreshed w row) \/ r = Raise ValueError) /\
      donations w' = donations w ++ [row] /\
      next_id w' = next_id w + 1 /\
      trace w' = trace w ++ EvCommit
                   :: EvBroadcast (new_donation_event (refreshed w row)) :: sends /\
      only_sends sends
    else r = Raise OperationalError /\ w' = after_failed_commit env (next_id w + 1) w.
Proof.
  intros row. unfold create_donation_interleaved, bind at 1, get_world.
  unfold db_commit, bind at 1. fold row. destruct (commit_ok env).
  - unfold bind at 1, db_refresh, bind at 1, get_world.
    cbn [donations]. unfold query_first_by_id at 1.
    rewrite find_app_last by (subst row; cbn; apply Z.eqb_refl).
    fold (query_first_by_id (id row) (donations w)). fold (refreshed w row).
    unfold ret at 1. unfold bind at 1.
    destruct (broadcast_interleaved_run env schedule (new_donation_event (refreshed w row))
                (mkWorld (donations w ++ [row]) (next_id w + 1) (active_connections w)
                         (trace w ++ [EvCommit])))
      as [r [w' [sends [Hrun [Hr [Hd [Hn [Ht Hs]]]]]]]].
    rewrite Hrun. cbn [donations next_id trace] in Hd, Hn, Ht.
    destruct Hr as [-> | ->].
    + exists (Return (refreshed w row)), w', sends.
      split; [reflexivity|]. rewrite Hd, Hn, Ht, <- app_assoc.
      repeat split; try assumption. now left.
    + exists (Raise ValueError), w', sends.
      split; [reflexivity|]. rewrite Hd, Hn, Ht, <- app_assoc.
      repeat split; try assumption. now right.
  - exists (Raise OperationalError), (after_failed_commit env (next_id w + 1) w), [].
    unfold after_failed_commit, raise.
    destruct (flushed_before_failure env); repeat split.
Qed.

(** ** Lifecycle: status updates *)

Lemma set_status_keeps_fields (d : Donation) (s : DonationStatus) :
  status (set_status d s) = s /\
  id (set_status d s) = id d /\
  donor_name (set_status d s) = donor_name d /\
  donor_phone (set_status d s) = donor_phone d /\
  food_type (set_status d s) = food_type d /\
  quantity_kg (set_status d s) = quantity_kg d /\
  description (set_status d s) = description d /\
  location (set_status d s) = location d /\
  latitude (set_status d s) = latitude d /\
  longitude (set_status d s) = longitude d /\
  address (set_status d s) = address d /\
  created_at (set_status d s) = created_at d /\
  expires_at (set_status d s) = expires_at d /\
  assigned_volunteer_id (set_status d s) = assigned_volunteer_id d /\
  assigned_at (set_status d s) = assigned_at d.
Proof. repeat split. Qed.

Lemma query_after_update_same (pk : Z) (s : DonationStatus) (rows : list Donation) (d : Donation) :
  query_first_by_id pk rows = Some d ->
  query_first_by_id pk (update_status_where_id pk s rows) = Some (set_status d s).
Proof.
  unfold query_first_by_id, update_status_where_id. intros Hd.
  rewrite find_map_stable.
  - rewrite Hd. apply find_some in Hd. destruct Hd as [_ Hd].
    cbv beta in Hd. cbn [option_map]. now rewrite Hd.
  - intros x. destruct (id x =? pk) eqn:Hx; exact Hx.
Qed.

Lemma query_after_update_other (pk other : Z) (s : DonationStatus) (rows : list Donation) :
  other <> pk ->
  query_first_by_id other (update_status_where_id pk s rows) = query_first_by_id other rows.
Proof.
  unfold query_first_by_id, update_status_where_id. intros Hne.
  induction rows as [|x rows IH]; simpl; [reflexivity|].
  destruct (Z.eqb_spec (id x) pk) as [Hx|Hx]; simpl.
  - destruct (Z.eqb_spec (id x) other); [lia|exact IH].
  - destruct (id x =? other); [reflexivity|exact IH].
Qed.

(** C1, as stated, fails: the handler applies an edge that is not in the
    graph.  A DELIVERED donation is set back to AVAILABLE, and a
    self-transition is accepted as well; both calls return normally. *)
Lemma update_donation_status_accepts_illegal_edge :
  let w := mkWorld [sample_row 1 DELIVERED one_hour] 2 [] [] in
  spec_legal_transition DELIVERED AVAILABLE = false /\
  fst (update_donation_status all_up 1 AVAILABLE w) = Return (status_updated 1 AVAILABLE) /\
  map status (donations (snd (update_donation_status all_up 1 AVAILABLE w))) = [AVAILABLE] /\
  spec_legal_transition DELIVERED DELIVERED = false /\
  fst (update_donation_status all_up 1 DELIVERED w) = Return (status_updated 1 DELIVERED).
Proof. vm_compute. repeat split. Qed.

(** C1, amended.  For a donation that exists, [update_donation_status]
    stores whatever status is requested, whatever the current one and
    whatever other tasks do to the connection list while the event is
    sent: the row found under the id afterwards carries the requested
    status, each of its other columns is the one it had, the other rows
    are as before, and no row is added or lost.  The call returns the
    "Status updated" dict, or raises the ValueError that a removal of an
    already removed connection raises in [broadcast]; with no other task
    running it returns the dict.  An unknown id is answered 404 and an
    unavailable store raises; both change nothing. *)
Theorem update_donation_status_sets_requested_status (env : Env)
    (schedule : list (list OtherTask)) (donation_id : Z)
    (new_status : DonationStatus) (w : World) :
  let r := update_donation_status_interleaved env schedule donation_id new_status w in
  let quiet := update_donation_status_interleaved env [] donation_id new_status w in
  match query_first_by_id donation_id (donations w) with
  | None => r = (Raise (HTTPException 404 "Donation not found"), w)
  | Some donation =>
      if commit_ok env then
        (fst r = fst quiet \/ fst r = Raise ValueError) /\
        fst quiet = Return (JObj [ ("message", JStr "Status updated");
                                   ("donation_id", JInt donation_id);
                                   ("new_status", JStr (DonationStatus_value new_status)) ]) /\
        (exists d',
           query_first_by_id donation_id (donations (snd r)) = Some d' /\
           status d' = new_status /\
           id d' = donation_id /\
           donor_name d' = donor_name donation /\
           donor_phone d' = donor_phone donation /\
           food_type d' = food_type donation /\
           quantity_kg d' = quantity_kg donation /\
           description d' = description donation /\
           location d' = location donation /\
           latitude d' = latitude donation /\
           longitude d' = longitude donation /\
           address d' = address donation /\
           created_at d' = created_at donation /\
           expires_at d' = expires_at donation /\
           assigned_volunteer_id d' = assigned_volunteer_id donation /\
           assigned_at d' = assigned_at donation) /\
        (forall other, other <> donation_id ->
           query_first_by_id other (donations (snd r))
             = query_first_by_id other (donations w)) /\
        List.length (donations (snd r)) = List.length (donations w) /\
        next_id (snd r) = next_id w
      else r = (Raise OperationalError, w)
  end.
Proof.
  intros r quiet. subst r quiet.
  rewrite update_donation_status_interleaved_quiet, update_donation_status_run.
  destruct (update_donation_status_interleaved_run env schedule donation_id new_status w)
    as [r [w' [sends [Hrun H]]]].
  rewrite Hrun.
  destruct (query_first_by_id donation_id (donations w)) as [d|] eqn:Hd.
  - destruct (commit_ok env).
    + destruct H as [Hr [Hrows [Hn _]]]. cbn [fst snd].
      destruct (query_first_by_id_id _ _ _ Hd) as [Hid _].
      rewrite Hrows, Hid. split; [exact Hr|]. split; [reflexivity|].
      split; [|split; [|split]].
      * exists (set_status d new_status).
        split; [now apply query_after_update_same|].
        cbn. rewrite Hid. repeat split.
      * intros other Hne. now apply query_after_update_other.
      * unfold update_status_where_id. apply length_map.
      * exact Hn.
    + destruct H as [-> ->]. reflexivity.
  - destruct H as [-> ->]. reflexivity.
Qed.

(** C7, as stated, fails: no decoding of the emitted events recovers the
    status a donation had before its transition.  Two updates of the same
    donation to the same status, from different statuses, emit the same
    event. *)
Lemma status_update_event_forgets_old_status :
  ~ exists old_status_of : Json -> DonationStatus,
      forall (env : Env) (donation_id : Z) (new_status : DonationStatus) (w : World)
             (donation : Donation) (message : Json),
        query_first_by_id donation_id (donations w) = Some donation ->
        broadcasts (trace (snd (update_donation_status env donation_id new_status w)))
          = broadcasts (trace w) ++ [message] ->
        old_status_of message = status donation.
Proof.
  intros [f Hf].
  pose proof (Hf all_up 1 CANCELLED (mkWorld [sample_row 1 AVAILABLE one_hour] 2 [] [])
                 (sample_row 1 AVAILABLE one_hour) (status_update_event 1 CANCELLED)
                 eq_refl eq_refl) as H1.
  pose proof (Hf all_up 1 CANCELLED (mkWorld [sample_row 1 ASSIGNED one_hour] 2 [] [])
                 (sample_row 1 ASSIGNED one_hour) (status_update_event 1 CANCELLED)
                 eq_refl eq_refl) as H2.
  simpl in H1, H2. congruence.
Qed.

(** C7, amended.  An accepted status update emits exactly one event, the
    STATUS_UPDATE message whose data are the donation id and the status
    after the update, and nothing else. *)
Theorem status_update_event_carries_id_and_new_status (env : Env) (donation_id : Z)
    (new_status : DonationStatus) (w : World) (donation : Donation) :
  query_first_by_id donation_id (donations w) = Some donation ->
  commit_ok env = true ->
  broadcasts (trace (snd (update_donation_status env donation_id new_status w)))
    = broadcasts (trace w) ++
      [ JObj [ ("event", JStr "STATUS_UPDATE");
               ("data", JObj [ ("id", JInt donation_id);
                               ("status", JStr (DonationStatus_value new_status)) ]) ] ].
Proof.
  intros Hd Hok. rewrite update_donation_status_run, Hd, Hok.
  cbn [snd trace]. destruct (query_first_by_id_id _ _ _ Hd) as [Hid _].
  rewrite Hid, broadcasts_app. cbn [broadcasts].
  rewrite broadcasts_broadcast_effects. reflexivity.
Qed.

(** C7 amended, on a DELIVERED donation set to CANCELLED. *)
Lemma status_update_event_carries_id_and_new_status_witness :
  broadcasts (trace (snd (update_donation_status all_up 1 CANCELLED
                            (mkWorld [sample_row 1 DELIVERED one_hour] 2 [3%nat] []))))
    = [ JObj [ ("event", JStr "STATUS_UPDATE");
               ("data", JObj [ ("id", JInt 1); ("status", JStr "CANCELLED") ]) ] ].
Proof.
  apply (status_update_event_carries_id_and_new_status all_up 1 CANCELLED
           (mkWorld [sample_row 1 DELIVERED one_hour] 2 [3%nat] [])
           (sample_row 1 DELIVERED one_hour)); reflexivity.
Defined.

(** ** Store write and event emission *)

(** C6.  In [create_donation] and in [update_donation_status] the commit
    comes first and the event second, whatever other tasks do to the
    connection list while the event is sent.  When the commit of a create
    fails the handler raises and rows, connections and trace are as
    before: no event.  When it succeeds the table has grown by one row,
    AVAILABLE and built from the body, and the trace has grown by the
    commit, then one broadcast of the NEW_DONATION message of that row,
    then send attempts only.  An accepted status update that commits
    leaves the requested status in the row and adds the commit, then one
    broadcast of the STATUS_UPDATE message, then send attempts only; when
    its commit fails, or the id is unknown, nothing changes at all. *)
Theorem event_is_emitted_after_commit_only (env : Env) (schedule : list (list OtherTask))
    (now : datetime) (body : DonationCreate.t) (donation_id : Z)
    (new_status : DonationStatus) (w : World) :
  keys_below_sequence w ->
  let c := create_donation_interleaved env schedule now body w in
  let u := update_donation_status_interleaved env schedule donation_id new_status w in
  let row :=
    mkDonation (next_id w)
               (DonationCreate.donor_name body) (DonationCreate.donor_phone body)
               (DonationCreate.food_type body) (DonationCreate.quantity_kg body)
               (DonationCreate.description body)
               (Some (DonationCreate.longitude body, DonationCreate.latitude body))
               (DonationCreate.latitude body) (DonationCreate.longitude body)
               (DonationCreate.address body)
               AVAILABLE now (DonationCreate.expires_at body) None None in
  let created :=
    JObj [ ("event", JStr "NEW_DONATION");
           ("data", JObj [ ("id", JInt (next_id w));
                           ("latitude", JFloat (DonationCreate.latitude body));
                           ("longitude", JFloat (DonationCreate.longitude body));
                           ("food_type", JStr (FoodType_value (DonationCreate.food_type body)));
                           ("quantity_kg", JFloat (DonationCreate.quantity_kg body));
                           ("donor_name", JStr (DonationCreate.donor_name body));
                           ("status", JStr "AVAILABLE") ]) ] in
  let changed :=
    JObj [ ("event", JStr "STATUS_UPDATE");
           ("data", JObj [ ("id", JInt donation_id);
                           ("status", JStr (DonationStatus_value new_status)) ]) ] in
  (if commit_ok env then
     exists sends,
       (fst c = Return row \/ fst c = Raise ValueError) /\
       donations (snd c) = donations w ++ [row] /\
       trace (snd c) = trace w ++ EvCommit :: EvBroadcast created :: sends /\
       only_sends sends /\
       broadcasts (trace (snd c)) = broadcasts (trace w) ++ [created]
   else
     fst c = Raise OperationalError /\
     donations (snd c) = donations w /\
     active_connections (snd c) = active_connections w /\
     trace (snd c) = trace w) /\
  match query_first_by_id donation_id (donations w) with
  | None => u = (Raise (HTTPException 404 "Donation not found"), w)
  | Some donation =>
      if commit_ok env then
        exists d' sends,
          (fst u = Return (status_updated donation_id new_status) \/
           fst u = Raise ValueError) /\
          query_first_by_id donation_id (donations (snd u)) = Some d' /\
          status d' = new_status /\
          trace (snd u) = trace w ++ EvCommit :: EvBroadcast changed :: sends /\
          only_sends sends /\
          broadcasts (trace (snd u)) = broadcasts (trace w) ++ [changed]
      else u = (Raise OperationalError, w)
  end.
Proof.
  intros Hk c u row created changed. subst c u. split.
  - pose proof (create_donation_interleaved_run env schedule now body w) as H.
    cbv zeta in H. destruct H as [r [w' [sends [Hrun H]]]]. rewrite Hrun.
    rewrite (refreshed_fresh w now body Hk) in H. cbn [fst snd].
    destruct (commit_ok env).
    + destruct H as [Hr [Hd [_ [Ht Hs]]]]. exists sends.
      split; [exact Hr|]. split; [exact Hd|]. split; [exact Ht|]. split; [exact Hs|].
      rewrite Ht, broadcasts_app. cbn [broadcasts].
      rewrite (only_sends_broadcasts _ Hs). reflexivity.
    + destruct H as [-> ->].
      destruct (after_failed_commit_keeps env (next_id w + 1) w) as [Hd [Ha [Ht _]]].
      now rewrite Hd, Ha, Ht.
  - destruct (update_donation_status_interleaved_run env schedule donation_id new_status w)
      as [r [w' [sends [Hrun H]]]].
    rewrite Hrun.
    destruct (query_first_by_id donation_id (donations w)) as [d|] eqn:Hd.
    + destruct (commit_ok env).
      * destruct H as [Hr [Hrows [_ [Ht Hs]]]]. cbn [fst snd].
        destruct (query_first_by_id_id _ _ _ Hd) as [Hid _].
        rewrite Hid in Hrows, Ht.
        exists (set_status d new_status), sends.
        split; [exact Hr|].
        split; [rewrite Hrows; now apply query_after_update_same|].
        split; [reflexivity|]. split; [exact Ht|]. split; [exact Hs|].
        rewrite Ht, broadcasts_app. cbn [broadcasts].
        rewrite (only_sends_broadcasts _ Hs). reflexivity.
      * destruct H as [-> ->]. reflexivity.
    + destruct H as [-> ->]. reflexivity.
Qed.

(** C6 on a table of one donation and two clients, the second of which
    leaves while the event is being sent to the first. *)
Lemma event_is_emitted_after_commit_only_witness :
  let w := mkWorld [sample_row 1 AVAILABLE one_hour] 2 [1%nat; 2%nat] [] in
  keys_below_sequence w /\
  broadcasts (trace (snd (create_donation_interleaved all_up [[OtherDisconnect 2%nat]] 0
                            (sample_body one_hour) w)))
    = [ JObj [ ("event", JStr "NEW_DONATION");
               ("data", JObj [ ("id", JInt 2);
                               ("latitude", JFloat (130827 # 10000)%Q);
                               ("longitude", JFloat (802707 # 10000)%Q);
                               ("food_type", JStr "VEG");
                               ("quantity_kg", JFloat (31 # 2)%Q);
                               ("donor_name", JStr "Raj's Restaurant");
                               ("status", JStr "AVAILABLE") ]) ] ] /\
  fst (update_donation_status_interleaved store_down [[OtherDisconnect 2%nat]] 1 ASSIGNED w)
    = Raise OperationalError.
Proof.
  intros w.
  assert (Hk : keys_below_sequence w) by (repeat constructor).
  split; [exact Hk|].
  split.
  - destruct (event_is_emitted_after_commit_only all_up [[OtherDisconnect 2%nat]] 0
                (sample_body one_hour) 1 ASSIGNED w Hk) as [[sends [_ [_ [_ [_ Hb]]]]] _].
    exact Hb.
  - destruct (event_is_emitted_after_commit_only store_down [[OtherDisconnect 2%nat]] 0
                (sample_body one_hour) 1 ASSIGNED w Hk) as [_ Hu].
    change (query_first_by_id 1 (donations w)) with (Some (sample_row 1 AVAILABLE one_hour)) in Hu.
    cbv iota beta in Hu. change (commit_ok store_down) with false in Hu.
    cbv iota in Hu. now rewrite Hu.
Defined.

(** ** Expiry sweep *)

(** C3, as stated, fails on its last part: the sweep deletes an expired
    donation and reports the count, but hands no event to the connection
    manager, and the connected client receives nothing. *)
Lemma cleanup_expired_donations_emits_nothing :
  let w := mkWorld [sample_row 1 AVAILABLE one_hour] 2 [7%nat] [] in
  let r := cleanup_expired_donations all_up (one_hour + 1) w in
  fst r = Return (cleanup_message 1) /\
  donations (snd r) = [] /\
  broadcasts (trace (snd r)) = [] /\
  received 7%nat (trace (snd r)) = [].
Proof. vm_compute. repeat split. Qed.

(** C3, amended.  With the store available, the sweep at [now] keeps
    exactly the donations whose [expires_at] is not before [now], whatever
    their status, reports the number of deleted ones in its message, and
    neither emits an event nor touches the registered connections.  With
    the store unavailable it raises and changes nothing. *)
Theorem cleanup_expired_donations_deletes_expired (env : Env) (now : datetime) (w : World) :
  let r := cleanup_expired_donations env now w in
  let expired := filter (fun d => expires_at d <? now) (donations w) in
  if commit_ok env then
    fst r = Return (cleanup_message (Z.of_nat (List.length expired))) /\
    donations (snd r) = filter (fun d => negb (expires_at d <? now)) (donations w) /\
    (forall d, In d (donations (snd r)) <-> In d (donations w) /\ now <= expires_at d) /\
    (forall d, In d expired <-> In d (donations w) /\ expires_at d < now) /\
    (List.length (donations (snd r)) + List.length expired
       = List.length (donations w))%nat /\
    broadcasts (trace (snd r)) = broadcasts (trace w) /\
    attempted (trace (snd r)) = attempted (trace w) /\
    active_connections (snd r) = active_connections w
  else r = (Raise OperationalError, w).
Proof.
  intros r expired. subst r expired. rewrite cleanup_expired_donations_run.
  destruct (commit_ok env); [|reflexivity].
  cbn [fst snd donations trace active_connections].
  split; [reflexivity|]. split; [reflexivity|]. split; [|split; [|split; [|split; [|split]]]].
  - intros d. rewrite filter_In, negb_true_iff, Z.ltb_ge. reflexivity.
  - intros d. rewrite filter_In, Z.ltb_lt. reflexivity.
  - pose proof (filter_length_split (fun d => expires_at d <? now) (donations w)). lia.
  - rewrite broadcasts_app. simpl. now rewrite app_nil_r.
  - rewrite attempted_app. simpl. now rewrite app_nil_r.
  - reflexivity.
Qed.

(** ** Listings *)

(** ** Listings *)

Lemma insert_by_expires_at_HdRel (x d : Donation) (l : list Donation) :
  expires_at_le x d -> HdRel expires_at_le x l ->
  HdRel expires_at_le x (insert_by_expires_at d l).
Proof.
  intros Hxd Hx. destruct l as [|y l]; simpl.
  - now constructor.
  - inversion Hx; subst. destruct (expires_at d <=? expires_at y); now constructor.
Qed.

Lemma insert_by_expires_at_sorted (d : Donation) (l : list Donation) :
  Sorted expires_at_le l -> Sorted expires_at_le (insert_by_expires_at d l).
Proof.
  induction 1 as [|x l Hl IH Hx]; simpl.
  - repeat constructor.
  - destruct (Z.leb_spec (expires_at d) (expires_at x)) as [Hle|Hgt].
    + constructor; [now constructor|]. now constructor.
    + constructor; [exact IH|].
      apply insert_by_expires_at_HdRel; [|exact Hx]. unfold expires_at_le. lia.
Qed.

Lemma insert_by_expires_at_perm (d : Donation) (l : list Donation) :
  Permutation (d :: l) (insert_by_expires_at d l).
Proof.
  induction l as [|x l IH]; simpl; [reflexivity|].
  destruct (expires_at d <=? expires_at x); [reflexivity|].
  rewrite perm_swap. now constructor.
Qed.

Lemma order_by_expires_at_asc_sorted (rows : list Donation) :
  Sorted expires_at_le (order_by_expires_at_asc rows).
Proof.
  induction rows as [|d rows IH]; simpl; [constructor|].
  now apply insert_by_expires_at_sorted.
Qed.

Lemma order_by_expires_at_asc_perm (rows : list Donation) :
  Permutation rows (order_by_expires_at_asc rows).
Proof.
  induction rows as [|d rows IH]; simpl; [reflexivity|].
  rewrite <- insert_by_expires_at_perm. now constructor.
Qed.

Lemma filter_available_status (rows : list Donation) :
  Forall (fun d => status d = AVAILABLE) (filter_available rows).
Proof.
  apply Forall_forall. intros d Hd. apply filter_In in Hd.
  destruct Hd as [_ Hd]. now destruct (status d).
Qed.

(** The part of C4 that holds of [get_available_donations]: it returns
    the AVAILABLE donations, all of them, by ascending [expires_at]. *)
Lemma get_available_donations_sorted (w : World) :
  exists l,
    get_available_donations w = (Return l, w) /\
    Forall (fun d => status d = AVAILABLE) l /\
    Sorted expires_at_le l /\
    Permutation (filter_available (donations w)) l.
Proof.
  eexists. split; [reflexivity|]. split; [|split].
  - eapply Permutation_Forall; [apply order_by_expires_at_asc_perm|].
    apply filter_available_status.
  - apply order_by_expires_at_asc_sorted.
  - apply order_by_expires_at_asc_perm.
Qed.

(** The part of C4 that holds of [get_map_markers]: one marker per
    AVAILABLE donation, in the order of the table. *)
Lemma get_map_markers_available (now : datetime) (w : World) :
  exists markers,
    get_map_markers now w = (Return markers, w) /\
    Forall (fun m => MapMarker.status m = AVAILABLE) markers /\
    map MapMarker.id markers = map id (filter_available (donations w)) /\
    map MapMarker.expires_at markers = map expires_at (filter_available (donations w)).
Proof.
  eexists. split; [reflexivity|]. split; [|split].
  - apply Forall_map. eapply Forall_impl; [|apply filter_available_status].
    intros d Hd. exact Hd.
  - rewrite map_map. reflexivity.
  - rewrite map_map. reflexivity.
Qed.

(** C4 on two AVAILABLE donations stored with the later expiry first:
    [get_available_donations] lists the sooner one first, while
    [get_map_markers] returns them as stored, the later expiry first. *)
Theorem get_map_markers_not_sorted :
  let w := mkWorld [sample_row 1 AVAILABLE (2 * one_hour);
                    sample_row 2 AVAILABLE one_hour] 3 [] [] in
  (exists l, fst (get_available_donations w) = Return l /\
             map id l = [2; 1] /\
             map expires_at l = [one_hour; 2 * one_hour]) /\
  (exists markers, fst (get_map_markers 0 w) = Return markers /\
                   Forall (fun m => MapMarker.status m = AVAILABLE) markers /\
                   map MapMarker.id markers = [1; 2] /\
                   map MapMarker.expires_at markers = [2 * one_hour; one_hour] /\
                   ~ Sorted Z.le (map MapMarker.expires_at markers)).
Proof.
  split.
  - eexists. split; [reflexivity|]. split; reflexivity.
  - eexists. split; [reflexivity|]. split; [repeat constructor|].
    split; [reflexivity|]. split; [reflexivity|].
    intros H. cbn in H. inversion H as [|a l _ Hhd]; subst.
    inversion Hhd as [|b l' Hle]; subst. vm_compute in Hle. now apply Hle.
Qed.

(** ** Marker projection *)

Lemma round_half_even_nonneg (y : Q) :
  0 <= round_half_even y <-> (-(1 # 2) <= y)%Q.
Proof.
  unfold round_half_even.
  pose proof (Qfloor_le y) as Hlo. pose proof (Qlt_floor y) as Hhi.
  rewrite inject_Z_plus in Hhi. change (inject_Z 1) with 1%Q in Hhi.
  set (f := Qfloor y) in *.
  destruct (y - inject_Z f ?= 1 # 2)%Q eqn:Hc.
  - apply Qeq_alt in Hc.
    assert (Hiff : (-(1 # 2) <= y)%Q <-> -1 <= f).
    { rewrite (Zle_Qle (-1) f). change (inject_Z (-1)) with (-1 # 1)%Q.
      split; intros H; lra. }
    rewrite Hiff. destruct (Z.even f) eqn:He; [|lia].
    split; [lia|]. intros H. destruct (Z.eq_dec f (-1)) as [E|E]; [|lia].
    rewrite E in He. discriminate.
  - apply Qlt_alt in Hc. split; intros H.
    + assert (0 <= inject_Z f)%Q
        by (change 0%Q with (inject_Z 0); rewrite <- Zle_Qle; lia).
      lra.
    + assert (-1 < f)
        by (rewrite (Zlt_Qlt (-1) f); change (inject_Z (-1)) with (-1 # 1)%Q; lra).
      lia.
  - apply Qgt_alt in Hc. split; intros H.
    + assert ((-1 # 1) <= inject_Z f)%Q
        by (change (-1 # 1)%Q with (inject_Z (-1)); rewrite <- Zle_Qle; lia).
      lra.
    + assert (-2 < f)
        by (rewrite (Zlt_Qlt (-2) f); change (inject_Z (-2)) with (-2 # 1)%Q; lra).
      lia.
Qed.

(** C5, as stated, fails: a donation that expired one hour ago is still
    listed by [get_map_markers], with a remaining life of -1.0 hour. *)
Lemma get_map_markers_negative_remaining_life :
  let w := mkWorld [sample_row 1 AVAILABLE 0] 2 [] [] in
  exists m,
    fst (get_map_markers one_hour w) = Return [m] /\
    (MapMarker.time_until_expiry_hours m == -1 # 1)%Q /\
    (MapMarker.time_until_expiry_hours m < 0)%Q.
Proof.
  eexists. split; [reflexivity|]. split; reflexivity.
Qed.

Lemma SF2Q_sign (x : spec_float) :
  (float_sign_is false x -> (0 <= SF2Q x)%Q) /\
  (float_sign_is true x -> (SF2Q x <= 0)%Q).
Proof.
  destruct x as [s|s| |s m e]; cbn [float_sign_is SF2Q].
  - split; intros _; apply Qle_refl.
  - split; intros ->; cbn [cond_Zopp]; unfold Qle; cbn; lia.
  - split; intros _; apply Qle_refl.
  - pose proof (Qpower_0_lt 2 e eq_refl) as Hp.
    split; intros ->; cbn [cond_Zopp].
    + apply Qmult_le_0_compat; [unfold Qle; cbn; lia|now apply Qlt_le_weak].
    + assert (H : (0 <= inject_Z (Zpos m) * Qpower 2 e)%Q).
      { apply Qmult_le_0_compat; [unfold Qle; cbn; lia|now apply Qlt_le_weak]. }
      change (inject_Z (- Zpos m)) with (- inject_Z (Zpos m))%Q.
      setoid_replace (- inject_Z (Zpos m) * Qpower 2 e)%Q
        with (- (inject_Z (Zpos m) * Qpower 2 e))%Q by ring.
      lra.
Qed.

Lemma float_div_sign (s : bool) (x : spec_float) (p : positive) (e : Z) :
  float_sign_is s x -> float_sign_is s (float_div x (S754_finite false p e)).
Proof.
  unfold float_div, SFdiv. destruct x as [sx|sx| |sx mx ex]; cbn [float_sign_is].
  - trivial.
  - intros <-. now destruct sx.
  - trivial.
  - intros <-. destruct (SFdiv_core_binary 53 1024 (Zpos mx) ex (Zpos p) e) as [[mz ez] lz].
    unfold binary_round_aux.
    destruct (shr_fexp 53 1024 mz ez lz) as [mrs e'].
    destruct (shr_fexp 53 1024 _ e' loc_Exact) as [mrs' e''].
    destruct (shr_m mrs'); cbn [float_sign_is]; trivial.
    destruct (e'' <=? 1024 - 53); cbn [float_sign_is]; now destruct sx.
Qed.

Lemma float_of_int_sign (n : Z) :
  (0 <= n -> float_sign_is false (float_of_int n)) /\
  (n <= 0 -> float_sign_is true (float_of_int n)).
Proof.
  destruct n; cbn [float_of_int float_sign_is]; split; intros H; trivial; lia.
Qed.

Lemma time_diff_hours_sign (now : datetime) (donation : Donation) :
  (now <= expires_at donation -> (0 <= SF2Q (time_diff_hours now donation))%Q) /\
  (expires_at donation <= now -> (SF2Q (time_diff_hours now donation) <= 0)%Q).
Proof.
  unfold time_diff_hours, total_seconds.
  change (float_of_int 1000000) with (S754_finite false 1000000 0).
  change (float_of_int 3600) with (S754_finite false 3600 0).
  split; intros H.
  - apply SF2Q_sign. do 2 apply float_div_sign. apply float_of_int_sign. lia.
  - apply SF2Q_sign. do 2 apply float_div_sign. apply float_of_int_sign. lia.
Qed.

Lemma round1_nonneg (x : spec_float) :
  (0 <= round1 x)%Q <-> (- (1 # 20) <= SF2Q x)%Q.
Proof.
  destruct x as [s|s| |s m e]; unfold round1.
  - cbn [SF2Q]. split; intros _; [discriminate|apply Qle_refl].
  - cbn [SF2Q]. destruct s; cbn [cond_Zopp]; unfold Qle; cbn; split; intros H; lia.
  - cbn [SF2Q]. split; intros _; [discriminate|apply Qle_refl].
  - set (v := SF2Q (S754_finite s m e)).
    transitivity (0 <= round_half_even (v * 10)).
    + unfold Qle. cbn [Qnum Qden]. lia.
    + rewrite round_half_even_nonneg. split; intros H; lra.
Qed.

Lemma round_half_even_nonpos (y : Q) :
  (y <= 0)%Q -> round_half_even y <= 0.
Proof.
  intros Hy. unfold round_half_even.
  pose proof (Qfloor_le y) as Hlo.
  set (f := Qfloor y) in *.
  assert (Hf : f <= 0).
  { apply Z.lt_succ_r. rewrite (Zlt_Qlt f (Z.succ 0)).
    change (inject_Z (Z.succ 0)) with 1%Q. lra. }
  destruct (y - inject_Z f ?= 1 # 2)%Q eqn:Hc.
  - apply Qeq_alt in Hc.
    assert (f < 0) by (rewrite (Zlt_Qlt f 0); change (inject_Z 0) with 0%Q; lra).
    destruct (Z.even f); lia.
  - exact Hf.
  - apply Qgt_alt in Hc.
    assert (f < 0) by (rewrite (Zlt_Qlt f 0); change (inject_Z 0) with 0%Q; lra).
    lia.
Qed.

Lemma round1_nonpos (x : spec_float) :
  (SF2Q x <= 0)%Q -> (round1 x <= 0)%Q.
Proof.
  destruct x as [s|s| |s m e]; unfold round1; try (intros H; exact H).
  set (v := SF2Q (S754_finite s m e)). intros H.
  assert (Hr : round_half_even (v * 10) <= 0) by (apply round_half_even_nonpos; lra).
  unfold Qle. cbn [Qnum Qden]. lia.
Qed.

(** C5, amended.  The projection computes the remaining life as the float
    quotient [(expires_at - now).total_seconds() / 3600] rounded to one
    decimal and does not clamp it.  The field is non-negative exactly when
    that quotient is at least -0.05; so it is non-negative for every
    donation that has not expired, never positive for one that has, and
    negative once the expiry is far enough past: already -0.1 at 180
    seconds, zero one microsecond earlier. *)
Theorem marker_of_remaining_life_sign (now : datetime) (donation : Donation) :
  let life := MapMarker.time_until_expiry_hours (marker_of now donation) in
  life = round1 (float_div (total_seconds (expires_at donation - now)) (float_of_int 3600)) /\
  ((0 <= life)%Q <-> (- (1 # 20) <= SF2Q (time_diff_hours now donation))%Q) /\
  (now <= expires_at donation -> (0 <= life)%Q) /\
  (expires_at donation <= now -> (life <= 0)%Q) /\
  (now - expires_at donation = 180000000 -> (life == - (1 # 10))%Q) /\
  (now - expires_at donation = 179999999 -> (life == 0)%Q).
Proof.
  intros life. subst life. cbn [marker_of MapMarker.time_until_expiry_hours].
  fold (time_diff_hours now donation).
  split; [reflexivity|]. split; [apply round1_nonneg|].
  destruct (time_diff_hours_sign now donation) as [Hpos Hneg].
  split; [|split; [|split]].
  - intros H. apply round1_nonneg. specialize (Hpos H). lra.
  - intros H. apply round1_nonpos. now apply Hneg.
  - intros H. unfold time_diff_hours.
    replace (expires_at donation - now) with (-180000000) by lia.
    vm_compute. reflexivity.
  - intros H. unfold time_diff_hours.
    replace (expires_at donation - now) with (-179999999) by lia.
    vm_compute. reflexivity.
Qed.

(** ** Validation of the create input *)

Lemma Qle_bool_false (x y : Q) : (y < x)%Q -> Qle_bool x y = false.
Proof.
  intros H. destruct (Qle_bool x y) eqn:E; [|reflexivity].
  apply Qle_bool_iff in E. lra.
Qed.

Lemma out_of_range_is_invalid (body : DonationCreate.t) :
  (DonationCreate.quantity_kg body <= 0 \/ 500 < DonationCreate.quantity_kg body \/
   DonationCreate.latitude body < -90 \/ 90 < DonationCreate.latitude body \/
   DonationCreate.longitude body < -180 \/ 180 < DonationCreate.longitude body)%Q ->
  validate_DonationCreate body = false.
Proof.
  unfold validate_DonationCreate, valid_quantity_kg, valid_latitude, valid_longitude.
  intros [H|[H|[H|[H|[H|H]]]]].
  - apply Qle_bool_iff in H. rewrite H. simpl. now rewrite !andb_false_r.
  - rewrite (Qle_bool_false _ _ H). now rewrite !andb_false_r.
  - rewrite (Qle_bool_false _ _ H). simpl. now rewrite !andb_false_r.
  - rewrite (Qle_bool_false _ _ H). now rewrite !andb_false_r.
  - rewrite (Qle_bool_false _ _ H). simpl. now rewrite !andb_false_r.
  - rewrite (Qle_bool_false _ _ H). now rewrite !andb_false_r.
Qed.

(** C8, as stated, fails on the expiry: a body that is valid in every
    checked field but whose [expires_at] lies before the time of creation
    is accepted, and the donation is written with [expires_at] before
    [created_at]. *)
Lemma post_api_donations_accepts_past_expiry :
  let r := post_api_donations all_up 100 (sample_body 5) (initial_world []) in
  exists d,
    fst r = Return d /\
    donations (snd r) = [d] /\
    created_at d = 100 /\ expires_at d = 5 /\
    ~ (created_at d < expires_at d).
Proof.
  eexists. split; [reflexivity|]. split; [reflexivity|].
  split; [reflexivity|]. split; [reflexivity|]. cbn. lia.
Qed.

(** C8, amended.  A body that violates a [Field] constraint, in particular
    a quantity that is not in (0, 500] or a latitude or longitude outside
    [-90, 90] or [-180, 180], is rejected with a validation error before
    any store write: the world is unchanged.  [expires_at] is not compared
    with the creation time: a valid body is written, the store being
    available, with its [expires_at] as given and [created_at = now],
    whichever comes first. *)
Theorem post_api_donations_validates_fields_only (env : Env) (now : datetime)
    (body : DonationCreate.t) (w : World) :
  (validate_DonationCreate body = false ->
     post_api_donations env now body w = (Raise RequestValidationError, w)) /\
  ((DonationCreate.quantity_kg body <= 0 \/ 500 < DonationCreate.quantity_kg body \/
    DonationCreate.latitude body < -90 \/ 90 < DonationCreate.latitude body \/
    DonationCreate.longitude body < -180 \/ 180 < DonationCreate.longitude body)%Q ->
     post_api_donations env now body w = (Raise RequestValidationError, w)) /\
  (validate_DonationCreate body = true -> commit_ok env = true ->
     exists d,
       donations (snd (post_api_donations env now body w)) = donations w ++ [d] /\
       status d = AVAILABLE /\
       created_at d = now /\
       expires_at d = DonationCreate.expires_at body).
Proof.
  assert (Hrej : validate_DonationCreate body = false ->
                 post_api_donations env now body w = (Raise RequestValidationError, w)).
  { intros H. unfold post_api_donations. now rewrite H. }
  split; [exact Hrej|]. split.
  - intros H. apply Hrej. now apply out_of_range_is_invalid.
  - intros Hv Hok. unfold post_api_donations. rewrite Hv, create_donation_run, Hok.
    eexists. cbn [snd donations]. split; [reflexivity|]. repeat split.
Qed.

(** C8 amended, on a zero quantity (rejected) and on a valid body whose
    expiry precedes its creation (written). *)
Lemma post_api_donations_validates_fields_only_witness :
  post_api_donations all_up 100
      (DonationCreate.mk "Raj's Restaurant" "+919876543210" VEG 0%Q None
                         (130827 # 10000)%Q (802707 # 10000)%Q
                         "123 Marina Beach Road, Chennai" one_hour)
      (initial_world [])
    = (Raise RequestValidationError, initial_world []) /\
  exists d,
    donations (snd (post_api_donations all_up 100 (sample_body 5) (initial_world [])))
      = [] ++ [d] /\
    status d = AVAILABLE /\ created_at d = 100 /\ expires_at d = 5.
Proof.
  split.
  - apply (proj1 (proj2 (post_api_donations_validates_fields_only all_up 100 _ _))).
    left. cbn. unfold Qle. cbn. lia.
  - apply (proj2 (proj2 (post_api_donations_validates_fields_only
                           all_up 100 (sample_body 5) (initial_world []))));
      reflexivity.
Defined.

(** ** The assignment columns *)

Lemma serve_keeps_unassigned (env : Env) (r : Request) (w : World) :
  Forall unassigned (donations w) -> Forall unassigned (donations (serve env r w)).
Proof.
  intros Hw. destruct r as [now body|donation_id new_status|now]; unfold serve.
  - unfold post_api_donations.
    destruct (validate_DonationCreate body); [|exact Hw].
    rewrite create_donation_run.
    destruct (commit_ok env);
      [|cbn [snd]; now rewrite (proj1 (after_failed_commit_keeps env (next_id w + 1) w))].
    cbn [snd donations]. apply Forall_app. split; [exact Hw|].
    constructor; [|constructor]. split; reflexivity.
  - rewrite update_donation_status_run.
    destruct (query_first_by_id donation_id (donations w)) as [d|]; [|exact Hw].
    destruct (commit_ok env); [|exact Hw].
    cbn [snd donations]. unfold update_status_where_id.
    apply Forall_map. eapply Forall_impl; [|exact Hw].
    intros x Hx. destruct (id x =? id d); exact Hx.
  - rewrite cleanup_expired_donations_run. destruct (commit_ok env); [|exact Hw].
    cbn [snd donations]. apply Forall_forall. intros x Hx.
    apply filter_In in Hx. rewrite Forall_forall in Hw. now apply Hw.
Qed.

Lemma serve_all_keeps_unassigned (reqs : list (Env * Request)) (w : World) :
  Forall unassigned (donations w) -> Forall unassigned (donations (serve_all reqs w)).
Proof.
  revert w. induction reqs as [|[env r] reqs IH]; intros w Hw; simpl; [exact Hw|].
  apply IH. now apply serve_keeps_unassigned.
Qed.

(** C9, as stated, fails: after a create and a status update to ASSIGNED
    the donation is ASSIGNED with no volunteer recorded. *)
Lemma assigned_without_volunteer :
  let w := serve_all [ (all_up, PostDonation 0 (sample_body one_hour));
                       (all_up, PatchStatus 1 ASSIGNED) ] (initial_world []) in
  exists d,
    donations w = [d] /\
    status d = ASSIGNED /\
    assigned_volunteer_id d = None /\
    ~ spec_volunteer_invariant d.
Proof.
  eexists. split; [reflexivity|]. split; [reflexivity|]. split; [reflexivity|].
  intros [H _]. now apply H.
Qed.

(** C9, amended.  In every state reached from an empty table by creates,
    status updates and sweeps, whatever the environment does, no donation
    has a volunteer or an assignment time recorded, whatever its status.
    So an AVAILABLE donation has its volunteer unset, and so has an
    ASSIGNED one: no operation sets the field. *)
Theorem assigned_volunteer_is_never_set (reqs : list (Env * Request)) (conns : list WebSocket) :
  let w := serve_all reqs (initial_world conns) in
  Forall unassigned (donations w) /\
  Forall (fun d => status d = AVAILABLE -> assigned_volunteer_id d = None) (donations w) /\
  Forall (fun d => status d = ASSIGNED -> assigned_volunteer_id d = None) (donations w).
Proof.
  intros w.
  assert (H : Forall unassigned (donations w)).
  { subst w. apply serve_all_keeps_unassigned. constructor. }
  split; [exact H|].
  split; (eapply Forall_impl; [|exact H]); intros d [Hd _] _; exact Hd.
Qed.

(** ** A run through the life of one donation *)

(** A donation expiring in one hour is created, listed, set to ASSIGNED
    and back to AVAILABLE, then swept once the hour has passed: the sweep
    reports one deletion, the listings are empty afterwards, and the one
    connected client has received the creation and the two status updates
    but nothing about the removal. *)
Example life_of_one_donation :
  let w1 := serve all_up (PostDonation 0 (sample_body one_hour)) (initial_world [7%nat]) in
  let w2 := serve all_up (PatchStatus 1 ASSIGNED) w1 in
  let w3 := serve all_up (PatchStatus 1 AVAILABLE) w2 in
  let swept := cleanup_expired_donations all_up (one_hour + 1) w3 in
  map id (donations w1) = [1] /\
  fst (update_donation_status all_up 1 AVAILABLE w2) = Return (status_updated 1 AVAILABLE) /\
  fst swept = Return (cleanup_message 1) /\
  fst (get_available_donations (snd swept)) = Return [] /\
  fst (get_map_markers (one_hour + 1) (snd swept)) = Return [] /\
  List.length (received 7%nat (trace (snd swept))) = 3%nat /\
  broadcasts (trace (snd swept))
    = [ new_donation_event (new_Donation 1 0 (sample_body one_hour));
        status_update_event 1 ASSIGNED;
        status_update_event 1 AVAILABLE ].
Proof. vm_compute. repeat split. Qed.

(* ====================================================================== *)
(** * Further properties of main.py *)

(** ** Primary keys *)

Lemma update_status_where_id_ids (pk : Z) (s : DonationStatus) (rows : list Donation) :
  map id (update_status_where_id pk s rows) = map id rows.
Proof.
  unfold update_status_where_id. rewrite map_map. apply map_ext.
  intros d. now destruct (id d =? pk).
Qed.

Lemma filter_keeps_distinct_ids (keep : Donation -> bool) (rows : list Donation) :
  NoDup (map id rows) -> NoDup (map id (filter keep rows)).
Proof.
  intros Hrows. induction rows as [|d rows IH]; [constructor|].
  cbn [map] in Hrows. apply NoDup_cons_iff in Hrows. destruct Hrows as [Hd Hrows].
  cbn [filter]. destruct (keep d); [|now apply IH].
  cbn [map]. apply NoDup_cons_iff. split; [|now apply IH].
  intros Hin. apply Hd. apply in_map_iff in Hin. destruct Hin as [z [Hz Hin]].
  apply in_map_iff. exists z. split; [exact Hz|]. now apply filter_In in Hin.
Qed.

Lemma serve_keeps_distinct_ids (env : Env) (r : Request) (w : World) :
  keys_below_sequence w -> NoDup (map id (donations w)) ->
  NoDup (map id (donations (serve env r w))).
Proof.
  intros Hk Hw. destruct r as [now body|donation_id new_status|now]; unfold serve.
  - unfold post_api_donations.
    destruct (validate_DonationCreate body); [|exact Hw].
    rewrite create_donation_run.
    destruct (commit_ok env);
      [|cbn [snd]; now rewrite (proj1 (after_failed_commit_keeps env (next_id w + 1) w))].
    cbn [snd donations]. rewrite map_app. cbn [map id new_Donation].
    apply NoDup_app; [exact Hw|repeat constructor; intros []|].
    intros x Hx [<-|[]]. apply in_map_iff in Hx. destruct Hx as [d [Hd Hin]].
    unfold keys_below_sequence in Hk. rewrite Forall_forall in Hk.
    apply Hk in Hin. lia.
  - rewrite update_donation_status_run.
    destruct (query_first_by_id donation_id (donations w)) as [d|]; [|exact Hw].
    destruct (commit_ok env); [|exact Hw].
    cbn [snd donations]. now rewrite update_status_where_id_ids.
  - rewrite cleanup_expired_donations_run. destruct (commit_ok env); [|exact Hw].
    cbn [snd donations]. now apply filter_keeps_distinct_ids.
Qed.

Lemma serve_next_id_monotone (env : Env) (r : Request) (w : World) :
  next_id w <= next_id (serve env r w).
Proof.
  destruct r as [now body|donation_id new_status|now]; unfold serve.
  - unfold post_api_donations.
    destruct (validate_DonationCreate body); [|cbn; lia].
    rewrite create_donation_run. destruct (commit_ok env); [cbn; lia|]. cbn [snd].
    destruct (after_failed_commit_keeps env (next_id w + 1) w) as [_ [_ [_ [H|H]]]];
      rewrite H; lia.
  - rewrite update_donation_status_run.
    destruct (query_first_by_id donation_id (donations w)); [|cbn; lia].
    destruct (commit_ok env); cbn; lia.
  - rewrite cleanup_expired_donations_run. destruct (commit_ok env); cbn; lia.
Qed.

Lemma serve_all_keeps_distinct_ids (reqs : list (Env * Request)) (w : World) :
  keys_below_sequence w -> NoDup (map id (donations w)) ->
  NoDup (map id (donations (serve_all reqs w))).
Proof.
  revert w. induction reqs as [|[env r] reqs IH]; intros w Hk Hw; simpl; [exact Hw|].
  apply IH.
  - now apply serve_keeps_keys_below_sequence.
  - now apply serve_keeps_distinct_ids.
Qed.

Lemma initial_world_keys (conns : list WebSocket) :
  keys_below_sequence (initial_world conns) /\
  NoDup (map id (donations (initial_world conns))).
Proof. split; constructor. Qed.

(** X1.  In every state reached from an empty table by creates, status updates
    and sweeps, whatever the environment does, the donations carry
    pairwise distinct ids, all below the sequence: an id is never shared
    and the id of a swept donation is never handed out again. *)
Theorem donation_ids_are_distinct (reqs : list (Env * Request)) (conns : list WebSocket) :
  let w := serve_all reqs (initial_world conns) in
  NoDup (map id (donations w)) /\
  Forall (fun d => id d < next_id w) (donations w) /\
  (forall env r d, In d (donations (serve env r w)) ->
     In (id d) (map id (donations w)) \/ id d = next_id w).
Proof.
  intros w. destruct (initial_world_keys conns) as [Hk Hn].
  split; [now apply serve_all_keeps_distinct_ids|].
  split; [now apply serve_all_keeps_keys_below_sequence|].
  intros env r d Hd. destruct r as [now body|donation_id new_status|now];
    unfold serve in Hd.
  - unfold post_api_donations in Hd.
    destruct (validate_DonationCreate body); [|left; now apply in_map].
    rewrite create_donation_run in Hd.
    destruct (commit_ok env);
      [|cbn [snd] in Hd;
        rewrite (proj1 (after_failed_commit_keeps env (next_id w + 1) w)) in Hd;
        left; now apply in_map].
    cbn [snd donations] in Hd. apply in_app_or in Hd.
    destruct Hd as [Hd|[<-|[]]]; [left; now apply in_map|right; reflexivity].
  - left. rewrite update_donation_status_run in Hd.
    destruct (query_first_by_id donation_id (donations w)) as [d0|];
      [|now apply in_map].
    destruct (commit_ok env); [|now apply in_map].
    cbn [snd donations] in Hd. rewrite <- (update_status_where_id_ids (id d0) new_status).
    now apply in_map.
  - left. rewrite cleanup_expired_donations_run in Hd.
    destruct (commit_ok env); [|now apply in_map].
    cbn [snd donations] in Hd. apply filter_In in Hd. apply in_map. tauto.
Qed.

(** ** Lookup by id *)

(** X2.  [get_donation_by_id] never changes anything; it returns a stored
    donation carrying the requested id when there is one, and raises 404
    exactly when no stored donation has that id. *)
Theorem get_donation_by_id_finds_or_404 (donation_id : Z) (w : World) :
  snd (get_donation_by_id donation_id w) = w /\
  match fst (get_donation_by_id donation_id w) with
  | Return d => In d (donations w) /\ id d = donation_id
  | Raise e => e = HTTPException 404 "Donation not found" /\
               ~ In donation_id (map id (donations w))
  end.
Proof.
  unfold get_donation_by_id, bind, get_world, raise, ret.
  destruct (query_first_by_id donation_id (donations w)) as [d|] eqn:Hd; cbn [fst snd].
  - split; [reflexivity|]. apply query_first_by_id_id in Hd. tauto.
  - split; [reflexivity|]. split; [reflexivity|].
    intros Hin. apply in_map_iff in Hin. destruct Hin as [d [Hid Hin]].
    unfold query_first_by_id in Hd.
    apply (find_none _ _ Hd) in Hin. cbv beta in Hin.
    apply Z.eqb_neq in Hin. contradiction.
Qed.



(** ** Pagination *)

Lemma offset_rows_add (a b : Z) (rows : list Donation) :
  0 <= a -> 0 <= b -> offset_rows (a + b) rows = offset_rows b (offset_rows a rows).
Proof.
  intros Ha Hb. revert a Ha. induction rows as [|d rows IH]; intros a Ha.
  - cbn. reflexivity.
  - cbn [offset_rows]. destruct (Z.leb_spec a 0) as [H0|H0].
    + replace a with 0 by lia. cbn [Z.add]. reflexivity.
    + destruct (Z.leb_spec (a + b) 0); [lia|].
      replace (a + b - 1) with ((a - 1) + b) by lia. apply IH. lia.
Qed.

Lemma limit_rows_add (a b : Z) (rows : list Donation) :
  0 <= a -> 0 <= b ->
  limit_rows (a + b) rows = limit_rows a rows ++ limit_rows b (offset_rows a rows).
Proof.
  intros Ha Hb. revert a Ha. induction rows as [|d rows IH]; intros a Ha.
  - reflexivity.
  - cbn [limit_rows offset_rows]. destruct (Z.leb_spec a 0) as [H0|H0].
    + replace a with 0 by lia. cbn [Z.add app]. reflexivity.
    + destruct (Z.leb_spec (a + b) 0); [lia|]. cbn [app]. f_equal.
      replace (a + b - 1) with ((a - 1) + b) by lia. apply IH. lia.
Qed.

Lemma offset_rows_length (n : Z) (rows : list Donation) :
  0 <= n ->
  Z.of_nat (List.length (offset_rows n rows)) = Z.max 0 (Z.of_nat (List.length rows) - n).
Proof.
  intros Hn. revert n Hn. induction rows as [|d rows IH]; intros n Hn.
  - cbn. lia.
  - cbn [offset_rows]. destruct (Z.leb_spec n 0).
    + cbn [List.length]. lia.
    + rewrite IH by lia. cbn [List.length]. lia.
Qed.

Lemma limit_rows_length (n : Z) (rows : list Donation) :
  0 <= n ->
  Z.of_nat (List.length (limit_rows n rows)) = Z.min n (Z.of_nat (List.length rows)).
Proof.
  intros Hn. revert n Hn. induction rows as [|d rows IH]; intros n Hn.
  - cbn. lia.
  - cbn [limit_rows]. destruct (Z.leb_spec n 0).
    + cbn [List.length]. lia.
    + cbn [List.length]. rewrite Nat2Z.inj_succ, IH by lia. lia.
Qed.

Lemma offset_rows_incl (n : Z) (rows : list Donation) (d : Donation) :
  In d (offset_rows n rows) -> In d rows.
Proof.
  revert n. induction rows as [|x rows IH]; intros n; cbn [offset_rows]; [tauto|].
  destruct (n <=? 0); [tauto|]. intros H. right. now apply (IH (n - 1)).
Qed.

Lemma limit_rows_incl (n : Z) (rows : list Donation) (d : Donation) :
  In d (limit_rows n rows) -> In d rows.
Proof.
  revert n. induction rows as [|x rows IH]; intros n; cbn [limit_rows]; [tauto|].
  destruct (n <=? 0); [intros []|]. intros [H|H]; [now left|right; now apply (IH (n - 1))].
Qed.

(** X4.  [get_all_donations] changes nothing.  For [skip] and [limit]
    that are not negative and fit a [bigint] it returns a page of
    min(limit, rows left after skip) donations of the table, and
    consecutive pages tile the table: the page at [skip] of size [a]
    followed by the page at [skip + a] of size [b] is the page at [skip]
    of size [a + b].  A negative or too large [skip] or [limit] makes it
    raise the database's error. *)
Theorem get_all_donations_pages (skip a b : Z) (w : World) :
  0 <= skip -> 0 <= a -> 0 <= b -> skip + a + b <= BIGINT_MAX ->
  (exists p1 p2 p12,
     get_all_donations skip a w = (Return p1, w) /\
     get_all_donations (skip + a) b w = (Return p2, w) /\
     get_all_donations skip (a + b) w = (Return p12, w) /\
     p12 = p1 ++ p2 /\
     Z.of_nat (List.length p1)
       = Z.min a (Z.max 0 (Z.of_nat (List.length (donations w)) - skip)) /\
     (forall d, In d p1 -> In d (donations w))) /\
  (forall bad, bad < 0 \/ BIGINT_MAX < bad ->
     get_all_donations bad a w = (Raise DataError, w) /\
     get_all_donations skip bad w = (Raise DataError, w)).
Proof.
  intros Hs Ha Hb Hmax. unfold BIGINT_MAX in *. split.
  - unfold get_all_donations, BIGINT_MAX.
    repeat match goal with
           | |- context [?x <? ?y] => destruct (Z.ltb_spec x y); [lia|]
           end.
    cbn [orb]. unfold bind, get_world, ret.
    do 3 eexists. split; [reflexivity|]. split; [reflexivity|]. split; [reflexivity|].
    split; [|split].
    + rewrite offset_rows_add by lia. apply limit_rows_add; lia.
    + rewrite limit_rows_length, offset_rows_length by lia. reflexivity.
    + intros d Hd. apply limit_rows_incl in Hd. now apply offset_rows_incl in Hd.
  - intros bad Hbad. unfold get_all_donations, BIGINT_MAX, raise. split.
    + destruct (Z.ltb_spec bad 0); [reflexivity|].
      destruct (Z.ltb_spec a 0); [reflexivity|].
      destruct (Z.ltb_spec 9223372036854775807 bad); [reflexivity|lia].
    + destruct (Z.ltb_spec skip 0); [reflexivity|].
      destruct (Z.ltb_spec bad 0); [reflexivity|].
      destruct (Z.ltb_spec 9223372036854775807 skip); [reflexivity|].
      destruct (Z.ltb_spec 9223372036854775807 bad); [reflexivity|lia].
Qed.

(** Pages of one and two rows over a table of three, and a skip of 2^63. *)
Lemma get_all_donations_pages_witness :
  let w := mkWorld [sample_row 1 AVAILABLE 0; sample_row 2 ASSIGNED one_hour;
                    sample_row 3 AVAILABLE (2 * one_hour)] 4 [] [] in
  (exists p1 p2 p12,
     get_all_donations 0 1 w = (Return p1, w) /\
     get_all_donations (0 + 1) 2 w = (Return p2, w) /\
     get_all_donations 0 (1 + 2) w = (Return p12, w) /\
     p12 = p1 ++ p2 /\
     Z.of_nat (List.length p1)
       = Z.min 1 (Z.max 0 (Z.of_nat (List.length (donations w)) - 0)) /\
     (forall d, In d p1 -> In d (donations w))) /\
  get_all_donations 9223372036854775808 1 w = (Raise DataError, w).
Proof.
  intros w.
  destruct (get_all_donations_pages 0 1 2 w) as [Hpages Hbad];
    try (vm_compute; discriminate).
  split; [exact Hpages|].
  apply (Hbad 9223372036854775808). right. vm_compute. reflexivity.
Defined.

(** ** Sweeps compose *)

Lemma filter_filter_implied {A} (q r : A -> bool) (l : list A) :
  (forall x, q x = true -> r x = true) -> filter q (filter r l) = filter q l.
Proof.
  intros Hqr. induction l as [|x l IH]; simpl; [reflexivity|].
  destruct (r x) eqn:Hr; simpl.
  - now rewrite IH.
  - destruct (q x) eqn:Hq; [|exact IH]. apply Hqr in Hq. congruence.
Qed.

Lemma expired_count_split (now now' : datetime) (rows : list Donation) :
  now <= now' ->
  (List.length (filter (fun d => (expires_at d <? now)%Z) rows)
   + List.length (filter (fun d => (expires_at d <? now')%Z)
                         (filter (fun d => negb (expires_at d <? now)%Z) rows))
   = List.length (filter (fun d => (expires_at d <? now')%Z) rows))%nat.
Proof.
  intros Hle. induction rows as [|x rows IH]; simpl; [reflexivity|].
  destruct (Z.ltb_spec (expires_at x) now) as [H1|H1];
    destruct (Z.ltb_spec (expires_at x) now') as [H2|H2]; simpl;
    try (destruct (Z.ltb_spec (expires_at x) now') as [H3|H3]; simpl); lia.
Qed.

(** X5.  With the store available, a sweep at [now] followed by a sweep at a
    later [now'] leaves the table that one sweep at [now'] leaves, and the
    two reported counts add up to the count of that one sweep.  In
    particular a second sweep at the same instant deletes nothing. *)
Theorem cleanup_expired_donations_composes (env : Env) (now now' : datetime) (w : World) :
  commit_ok env = true -> now <= now' ->
  let first := cleanup_expired_donations env now w in
  let second := cleanup_expired_donations env now' (snd first) in
  let direct := cleanup_expired_donations env now' w in
  exists n1 n2,
    fst first = Return (cleanup_message n1) /\
    fst second = Return (cleanup_message n2) /\
    fst direct = Return (cleanup_message (n1 + n2)) /\
    donations (snd second) = donations (snd direct) /\
    fst (cleanup_expired_donations env now (snd first)) = Return (cleanup_message 0).
Proof.
  intros Hok Hle first second direct. subst first second direct.
  rewrite !cleanup_expired_donations_run, Hok. cbn [fst snd donations].
  do 2 eexists. split; [reflexivity|]. split; [reflexivity|]. split; [|split].
  - rewrite <- Nat2Z.inj_add, (expired_count_split now now' _ Hle). reflexivity.
  - apply filter_filter_implied. intros x Hx.
    apply negb_true_iff, Z.ltb_ge in Hx. apply negb_true_iff, Z.ltb_ge. lia.
  - replace (filter (fun d => expires_at d <? now)
                    (filter (fun d => negb (expires_at d <? now)) (donations w)))
      with (@nil Donation); [reflexivity|].
    symmetry. induction (donations w) as [|x l IH]; simpl; [reflexivity|].
    destruct (expires_at x <? now) eqn:Hx; simpl; [exact IH|]. now rewrite Hx.
Qed.

(** Two sweeps one hour apart over donations expiring at 0, 1h and 2h. *)
Lemma cleanup_expired_donations_composes_witness :
  let w := mkWorld [sample_row 1 AVAILABLE 0; sample_row 2 ASSIGNED one_hour;
                    sample_row 3 AVAILABLE (2 * one_hour)] 4 [] [] in
  exists n1 n2,
    fst (cleanup_expired_donations all_up 1 w) = Return (cleanup_message n1) /\
    fst (cleanup_expired_donations all_up (one_hour + 1)
           (snd (cleanup_expired_donations all_up 1 w))) = Return (cleanup_message n2) /\
    fst (cleanup_expired_donations all_up (one_hour + 1) w)
      = Return (cleanup_message (n1 + n2)) /\
    donations (snd (cleanup_expired_donations all_up (one_hour + 1)
                      (snd (cleanup_expired_donations all_up 1 w))))
      = donations (snd (cleanup_expired_donations all_up (one_hour + 1) w)) /\
    fst (cleanup_expired_donations all_up 1 (snd (cleanup_expired_donations all_up 1 w)))
      = Return (cleanup_message 0).
Proof.
  intros w.
  apply (cleanup_expired_donations_composes all_up 1 (one_hour + 1) w).
  - reflexivity.
  - vm_compute. discriminate.
Defined.

(** ** Sweep, then project *)




(** ** The two listings agree *)

(** X7.  [get_available_donations] and [get_map_markers] describe the same
    donations: the markers are, up to order, the projections of the
    donations listed as available. *)
Theorem listings_agree (now : datetime) (w : World) :
  exists l markers,
    fst (get_available_donations w) = Return l /\
    fst (get_map_markers now w) = Return markers /\
    Permutation (map (marker_of now) l) markers /\
    Permutation (map id l) (map MapMarker.id markers) /\
    List.length l = List.length markers.
Proof.
  unfold get_available_donations, get_map_markers, bind, get_world, ret. cbn [fst].
  do 2 eexists. split; [reflexivity|]. split; [reflexivity|].
  pose proof (order_by_expires_at_asc_perm (filter_available (donations w))) as Hp.
  split; [|split].
  - apply Permutation_map. now symmetry.
  - rewrite map_map. cbn [MapMarker.id marker_of].
    apply Permutation_map. now symmetry.
  - rewrite length_map. symmetry. now apply Permutation_length.
Qed.

(** ** Status and the listings *)

Lemma DonationStatus_eqb_eq (a b : DonationStatus) :
  DonationStatus_eqb a b = true <-> a = b.
Proof. destruct a, b; simpl; split; intros H; congruence. Qed.

Lemma listed_ids (w : World) (i : Z) :
  In i (returned_ids (get_available_donations w)) <->
  exists d, In d (donations w) /\ id d = i /\ status d = AVAILABLE.
Proof.
  unfold returned_ids, get_available_donations, bind, get_world, ret. cbn [fst].
  rewrite in_map_iff. split.
  - intros [d [Hid Hin]]. exists d.
    apply (Permutation_in _ (Permutation_sym (order_by_expires_at_asc_perm _))) in Hin.
    unfold filter_available in Hin. apply filter_In in Hin.
    destruct Hin as [Hin Hs]. apply DonationStatus_eqb_eq in Hs. tauto.
  - intros [d [Hin [Hid Hs]]]. exists d. split; [exact Hid|].
    apply (Permutation_in _ (order_by_expires_at_asc_perm _)).
    unfold filter_available. apply filter_In. split; [exact Hin|].
    now apply DonationStatus_eqb_eq.
Qed.

(** X8.  After a status update of an existing donation has committed, the
    donation is in the available listing exactly when the new status is
    AVAILABLE: any other status takes it off the map at once, and setting
    it back to AVAILABLE puts it on again. *)
Theorem status_update_moves_listing (env : Env) (donation_id : Z)
    (new_status : DonationStatus) (w : World) (donation : Donation) :
  query_first_by_id donation_id (donations w) = Some donation ->
  commit_ok env = true ->
  let w' := snd (update_donation_status env donation_id new_status w) in
  (In donation_id (returned_ids (get_available_donations w')) <-> new_status = AVAILABLE) /\
  (forall other, other <> donation_id ->
     (In other (returned_ids (get_available_donations w'))
      <-> In other (returned_ids (get_available_donations w)))).
Proof.
  intros Hd Hok w'. subst w'. rewrite update_donation_status_run, Hd, Hok.
  destruct (query_first_by_id_id _ _ _ Hd) as [Hid Hin]. rewrite Hid.
  split.
  - rewrite listed_ids. cbn [snd donations]. unfold update_status_where_id. split.
    + intros [x [Hx [Hxid Hs]]]. apply in_map_iff in Hx.
      destruct Hx as [y [Hy _]]. subst x.
      destruct (Z.eqb_spec (id y) donation_id) as [E|E]; [exact Hs|contradiction].
    + intros ->. exists (set_status donation AVAILABLE).
      split; [|split; [exact Hid|reflexivity]].
      apply in_map_iff. exists donation. split; [|exact Hin].
      now rewrite Hid, Z.eqb_refl.
  - intros other Hne. rewrite !listed_ids. cbn [snd donations].
    unfold update_status_where_id. split.
    + intros [x [Hx [Hxid Hs]]]. apply in_map_iff in Hx.
      destruct Hx as [y [Hy Hyin]]. subst x.
      destruct (Z.eqb_spec (id y) donation_id) as [E|E].
      * cbn [id set_status] in Hxid. congruence.
      * exists y. tauto.
    + intros [x [Hx [Hxid Hs]]]. exists x. split; [|tauto].
      apply in_map_iff. exists x. split; [|exact Hx].
      destruct (Z.eqb_spec (id x) donation_id); [congruence|reflexivity].
Qed.

(** An available donation set to DELIVERED leaves the listing. *)
Lemma status_update_moves_listing_witness :
  let w := mkWorld [sample_row 1 AVAILABLE one_hour; sample_row 2 AVAILABLE one_hour]
                   3 [] [] in
  (In 1 (returned_ids (get_available_donations
                         (snd (update_donation_status all_up 1 DELIVERED w))))
   <-> DELIVERED = AVAILABLE) /\
  (forall other, other <> 1 ->
     (In other (returned_ids (get_available_donations
                                (snd (update_donation_status all_up 1 DELIVERED w))))
      <-> In other (returned_ids (get_available_donations w)))).
Proof.
  intros w.
  apply (status_update_moves_listing all_up 1 DELIVERED w (sample_row 1 AVAILABLE one_hour));
    reflexivity.
Defined.

(** ** Stored values stay within the schema's bounds *)

Lemma serve_all_keeps_Forall (P : Donation -> Prop) :
  (forall pk now body, validate_DonationCreate body = true -> P (new_Donation pk now body)) ->
  (forall d s, P d -> P (set_status d s)) ->
  forall (reqs : list (Env * Request)) (w : World),
    Forall P (donations w) -> Forall P (donations (serve_all reqs w)).
Proof.
  intros Hnew Hset reqs. induction reqs as [|[env r] reqs IH]; intros w Hw; simpl;
    [exact Hw|].
  apply IH. destruct r as [now body|donation_id new_status|now]; unfold serve.
  - unfold post_api_donations.
    destruct (validate_DonationCreate body) eqn:Hv; [|exact Hw].
    rewrite create_donation_run.
    destruct (commit_ok env);
      [|cbn [snd]; now rewrite (proj1 (after_failed_commit_keeps env (next_id w + 1) w))].
    cbn [snd donations]. apply Forall_app. split; [exact Hw|].
    constructor; [now apply Hnew|constructor].
  - rewrite update_donation_status_run.
    destruct (query_first_by_id donation_id (donations w)) as [d|]; [|exact Hw].
    destruct (commit_ok env); [|exact Hw].
    cbn [snd donations]. unfold update_status_where_id.
    apply Forall_map. eapply Forall_impl; [|exact Hw].
    intros x Hx. destruct (id x =? id d); [now apply Hset|exact Hx].
  - rewrite cleanup_expired_donations_run. destruct (commit_ok env); [|exact Hw].
    cbn [snd donations]. apply Forall_forall. intros x Hx.
    apply filter_In in Hx. rewrite Forall_forall in Hw. now apply Hw.
Qed.

Lemma valid_body_within_bounds (pk : Z) (now : datetime) (body : DonationCreate.t) :
  validate_DonationCreate body = true -> within_bounds (new_Donation pk now body).
Proof.
  unfold validate_DonationCreate, valid_quantity_kg, valid_latitude, valid_longitude,
         within_bounds.
  cbn [quantity_kg latitude longitude new_Donation].
  rewrite !andb_true_iff, negb_true_iff, !Qle_bool_iff.
  intros [[[[[[_ _] [Hq0 Hq]] _] [Hla Hla']] [Hlo Hlo']] _].
  repeat split; try assumption.
  apply Qnot_le_lt. intros H. apply Qle_bool_iff in H. congruence.
Qed.

(** X9.  In every state reached from an empty table through the validated
    POST, status updates and sweeps, every stored donation has a quantity
    in (0, 500], a latitude in [-90, 90] and a longitude in [-180, 180],
    and its PostGIS point is the pair (longitude, latitude) of those
    columns. *)
Theorem stored_donations_within_bounds (reqs : list (Env * Request)) (conns : list WebSocket) :
  Forall (fun d => within_bounds d /\ location d = Some (longitude d, latitude d))
         (donations (serve_all reqs (initial_world conns))).
Proof.
  apply serve_all_keeps_Forall.
  - intros pk now body Hv. split; [now apply valid_body_within_bounds|reflexivity].
  - intros d s H. exact H.
  - constructor.
Qed.

(** ** Registration and the WebSocket endpoint *)


Lemma connect_run (websocket : WebSocket) (w : World) :
  connect websocket w
  = (Return tt, with_connections w (active_connections w ++ [websocket])).
Proof. reflexivity. Qed.

Lemma disconnect_last (websocket : WebSocket) (w : World) (conns : list WebSocket) :
  ~ In websocket conns ->
  disconnect websocket (with_connections w (conns ++ [websocket]))
  = (Return tt, with_connections w conns).
Proof.
  intros Hfresh. unfold disconnect, active_connections_remove, bind, get_world.
  cbn [with_connections active_connections].
  rewrite (list_remove_middle websocket conns [] Hfresh), app_nil_r. reflexivity.
Qed.



Lemma websocket_loop_run (env : Env) (isoformat : datetime -> string) (flag : bool)
    (websocket : WebSocket) (inbox : list ClientEvent) (w : World) :
  Forall (fun now => send_json_ok env websocket (pong (isoformat now)) = true)
         (texts_before_disconnect inbox) ->
  websocket_loop env isoformat flag websocket inbox w
  = let w1 := with_trace w (trace w ++ pongs_sent isoformat websocket
                                          (texts_before_disconnect inbox)) in
    if closes inbox then disconnect websocket w1 else (Return tt, w1).
Proof.
  revert w. induction inbox as [|ev inbox IH]; intros w Hok.
  - cbn. unfold ret, with_trace. rewrite app_nil_r. now destruct w.
  - destruct ev as [data now|].
    + cbn [texts_before_disconnect] in Hok. inversion Hok as [|x l Hnow Hrest]; subst.
      cbn [websocket_loop closes texts_before_disconnect].
      unfold send_json. rewrite Hnow. unfold log at 1.
      rewrite (IH _ Hrest). unfold with_trace, pongs_sent.
      cbn [donations next_id active_connections trace map].
      rewrite <- !app_assoc. reflexivity.
    + cbn. unfold with_trace. rewrite app_nil_r. now destruct w.
Qed.

Lemma received_pongs_sent (isoformat : datetime -> string) (c websocket : WebSocket)
    (times : list datetime) :
  received c (pongs_sent isoformat websocket times)
  = if Nat.eqb websocket c then map (fun now => pong (isoformat now)) times else [].
Proof.
  unfold pongs_sent. induction times as [|t times IH]; cbn [map received].
  - now destruct (Nat.eqb websocket c).
  - rewrite IH. now destruct (Nat.eqb websocket c).
Qed.

Lemma broadcasts_pongs_sent (isoformat : datetime -> string) (websocket : WebSocket)
    (times : list datetime) :
  broadcasts (pongs_sent isoformat websocket times) = [].
Proof. unfold pongs_sent. induction times as [|t times IH]; cbn; [reflexivity|exact IH]. Qed.

(** X11.  A whole session of a client that was not registered before and whose
    replies all go through: the endpoint returns normally; the client has
    then got one PONG per text frame it sent before closing, in order, and
    nobody else got anything; nothing was broadcast and the table is
    untouched; and the client is registered afterwards exactly when it has
    not closed yet. *)
Theorem websocket_endpoint_session (env : Env) (isoformat : datetime -> string)
    (flag : bool) (websocket : WebSocket) (inbox : list ClientEvent) (w : World) :
  ~ In websocket (active_connections w) ->
  Forall (fun now => send_json_ok env websocket (pong (isoformat now)) = true)
         (texts_before_disconnect inbox) ->
  let r := websocket_endpoint env isoformat flag websocket inbox w in
  fst r = Return tt /\
  active_connections (snd r)
    = (if closes inbox then active_connections w
       else active_connections w ++ [websocket]) /\
  received websocket (trace (snd r))
    = received websocket (trace w)
      ++ map (fun now => pong (isoformat now)) (texts_before_disconnect inbox) /\
  (forall other, other <> websocket ->
     received other (trace (snd r)) = received other (trace w)) /\
  broadcasts (trace (snd r)) = broadcasts (trace w) /\
  donations (snd r) = donations w.
Proof.
  intros Hfresh Hok r. subst r. unfold websocket_endpoint, bind.
  rewrite connect_run, (websocket_loop_run _ _ _ _ _ _ Hok). cbv zeta.
  set (sent := pongs_sent isoformat websocket (texts_before_disconnect inbox)).
  assert (Hrecv : received websocket (trace w ++ sent)
                  = received websocket (trace w)
                    ++ map (fun now => pong (isoformat now)) (texts_before_disconnect inbox)).
  { rewrite received_app. subst sent. now rewrite received_pongs_sent, Nat.eqb_refl. }
  assert (Hother : forall other, other <> websocket ->
                     received other (trace w ++ sent) = received other (trace w)).
  { intros other Hne. rewrite received_app. subst sent. rewrite received_pongs_sent.
    destruct (Nat.eqb_spec websocket other); [congruence|apply app_nil_r]. }
  assert (Hb : broadcasts (trace w ++ sent) = broadcasts (trace w)).
  { rewrite broadcasts_app. subst sent. rewrite broadcasts_pongs_sent. apply app_nil_r. }
  destruct (closes inbox).
  - change (with_trace (with_connections w (active_connections w ++ [websocket]))
                       (trace (with_connections w (active_connections w ++ [websocket])) ++ sent))
      with (with_connections (with_trace w (trace w ++ sent))
                             (active_connections w ++ [websocket])).
    rewrite (disconnect_last websocket _ _ Hfresh).
    cbn [fst snd with_connections with_trace active_connections trace donations].
    repeat split; assumption.
  - cbn [fst snd with_connections with_trace active_connections trace donations].
    repeat split; assumption.
Qed.

(** Two pings and a close, between two other clients. *)
Lemma websocket_endpoint_session_witness :
  let r := websocket_endpoint all_up (fun _ => "2026-01-25T20:00:00") false 4%nat
             [ReceiveText "ping" 0; ReceiveText "ping" 1; ReceiveDisconnect]
             (initial_world [1; 2]%nat) in
  fst r = Return tt /\
  active_connections (snd r) = [1; 2]%nat /\
  received 4%nat (trace (snd r))
    = [] ++ [pong "2026-01-25T20:00:00"; pong "2026-01-25T20:00:00"] /\
  (forall other, other <> 4%nat -> received other (trace (snd r)) = []) /\
  broadcasts (trace (snd r)) = [] /\
  donations (snd r) = [].
Proof.
  apply (websocket_endpoint_session all_up (fun _ => "2026-01-25T20:00:00") false 4%nat
           [ReceiveText "ping" 0; ReceiveText "ping" 1; ReceiveDisconnect]
           (initial_world [1; 2]%nat)).
  - simpl. intros [H|[H|H]]; try discriminate H; exact H.
  - repeat constructor.
Defined.

Lemma websocket_loop_app (env : Env) (isoformat : datetime -> string) (flag : bool)
    (websocket : WebSocket) (pre rest : list ClientEvent) (w : World) :
  closes pre = false ->
  Forall (fun now => send_json_ok env websocket (pong (isoformat now)) = true)
         (texts_before_disconnect pre) ->
  websocket_loop env isoformat flag websocket (pre ++ rest) w
  = websocket_loop env isoformat flag websocket rest
      (with_trace w (trace w ++ pongs_sent isoformat websocket (texts_before_disconnect pre))).
Proof.
  revert w. induction pre as [|ev pre IH]; intros w Hopen Hok.
  - cbn. unfold with_trace. rewrite app_nil_r. now destruct w.
  - destruct ev as [data now|]; [|discriminate Hopen].
    cbn [texts_before_disconnect] in Hok. inversion Hok as [|x l Hnow Hrest]; subst.
    cbn [app websocket_loop texts_before_disconnect]. cbn [closes] in Hopen.
    unfold send_json. rewrite Hnow. unfold log at 1.
    rewrite (IH _ Hopen Hrest). unfold with_trace, pongs_sent.
    cbn [donations next_id active_connections trace map].
    rewrite <- !app_assoc. reflexivity.
Qed.

(** X12.  When the reply to a text frame cannot be sent, what the endpoint does
    depends on the exception: a [WebSocketDisconnect] is caught and the
    client is unregistered; any other exception leaves the endpoint with
    the client still registered, to be pruned only by a later broadcast.
    Either way the frames after the failing one are never read. *)
Theorem websocket_endpoint_failed_reply (env : Env) (isoformat : datetime -> string)
    (flag : bool) (websocket : WebSocket) (pre rest : list ClientEvent)
    (data : string) (now : datetime) (w : World) :
  ~ In websocket (active_connections w) ->
  closes pre = false ->
  Forall (fun t => send_json_ok env websocket (pong (isoformat t)) = true)
         (texts_before_disconnect pre) ->
  send_json_ok env websocket (pong (isoformat now)) = false ->
  let r := websocket_endpoint env isoformat flag websocket
             (pre ++ ReceiveText data now :: rest) w in
  fst r = (if flag then Return tt else Raise SendError) /\
  active_connections (snd r)
    = (if flag then active_connections w else active_connections w ++ [websocket]) /\
  trace (snd r)
    = trace w ++ pongs_sent isoformat websocket (texts_before_disconnect pre)
      ++ [EvSendFailed websocket (pong (isoformat now))] /\
  donations (snd r) = donations w.
Proof.
  intros Hfresh Hopen Hok Hfail r. subst r. unfold websocket_endpoint, bind.
  rewrite connect_run, (websocket_loop_app _ _ _ _ _ _ _ Hopen Hok).
  cbn [websocket_loop]. unfold send_json. rewrite Hfail.
  unfold bind, log, raise.
  cbn [with_trace with_connections donations next_id active_connections trace].
  destruct flag.
  - unfold disconnect, active_connections_remove, bind, get_world, set_active_connections.
    cbn [active_connections].
    rewrite (list_remove_middle websocket (active_connections w) [] Hfresh), app_nil_r.
    cbn [fst snd active_connections trace donations].
    rewrite <- app_assoc. repeat split.
  - cbn [fst snd active_connections trace donations].
    rewrite <- app_assoc. repeat split.
Qed.

(** One ping answered, the second reply fails with a plain exception. *)
Lemma websocket_endpoint_failed_reply_witness :
  let env := mkEnv true (fun _ m => match m with
                                    | JObj [_; (_, JStr "late")] => false
                                    | _ => true
                                    end) false in
  let r := websocket_endpoint env (fun t => if t =? 0 then "early" else "late") false 4%nat
             ([ReceiveText "ping" 0] ++ ReceiveText "ping" 1 :: [ReceiveDisconnect])
             (initial_world [1; 2]%nat) in
  fst r = Raise SendError /\
  active_connections (snd r) = [1; 2]%nat ++ [4%nat] /\
  trace (snd r) = [] ++ [EvSent 4%nat (pong "early")] ++ [EvSendFailed 4%nat (pong "late")] /\
  donations (snd r) = [].
Proof.
  intros env.
  apply (websocket_endpoint_failed_reply env (fun t => if t =? 0 then "early" else "late")
           false 4%nat [ReceiveText "ping" 0] [ReceiveDisconnect] "ping" 1
           (initial_world [1; 2]%nat)).
  - simpl. intros [H|[H|H]]; try discriminate H; exact H.
  - reflexivity.
  - repeat constructor.
  - reflexivity.
Defined.

(** ** From creation to the sweep *)

(** X13.  In any reachable state, a valid POST that commits puts the new
    donation on the available listing at once; after a later sweep that
    commits, it is still listed exactly when its expiry is not before the
    instant of the sweep. *)
Theorem created_donation_listed_until_swept (reqs : list (Env * Request))
    (conns : list WebSocket) (env env' : Env) (now now' : datetime)
    (body : DonationCreate.t) :
  let w := serve_all reqs (initial_world conns) in
  let w1 := snd (post_api_donations env now body w) in
  let w2 := snd (cleanup_expired_donations env' now' w1) in
  validate_DonationCreate body = true ->
  commit_ok env = true ->
  commit_ok env' = true ->
  In (next_id w) (returned_ids (get_available_donations w1)) /\
  (In (next_id w) (returned_ids (get_available_donations w2))
   <-> now' <= DonationCreate.expires_at body).
Proof.
  intros w w1 w2 Hv Hok Hok'. subst w2 w1.
  destruct (initial_world_keys conns) as [Hk _].
  assert (Hkw : keys_below_sequence w) by now apply serve_all_keeps_keys_below_sequence.
  unfold post_api_donations. rewrite Hv, create_donation_run, Hok.
  rewrite cleanup_expired_donations_run, Hok'. cbn [snd donations].
  rewrite !listed_ids. cbn [donations]. split.
  - exists (new_Donation (next_id w) now body). split; [|split; reflexivity].
    apply in_or_app. right. now left.
  - split.
    + intros [d [Hd [Hid _]]]. apply filter_In in Hd. destruct Hd as [Hd Hexp].
      apply negb_true_iff, Z.ltb_ge in Hexp.
      apply in_app_or in Hd. destruct Hd as [Hd|[<-|[]]]; [|exact Hexp].
      unfold keys_below_sequence in Hkw. rewrite Forall_forall in Hkw.
      apply Hkw in Hd. lia.
    + intros Hle. exists (new_Donation (next_id w) now body).
      split; [|split; reflexivity]. apply filter_In. split.
      * apply in_or_app. right. now left.
      * apply negb_true_iff, Z.ltb_ge. exact Hle.
Qed.

(** A donation expiring in one hour, swept just after the hour. *)
Lemma created_donation_listed_until_swept_witness :
  let w1 := snd (post_api_donations all_up 0 (sample_body one_hour) (initial_world [])) in
  let w2 := snd (cleanup_expired_donations all_up (one_hour + 1) w1) in
  In 1 (returned_ids (get_available_donations w1)) /\
  (In 1 (returned_ids (get_available_donations w2)) <-> one_hour + 1 <= one_hour).
Proof.
  apply (created_donation_listed_until_swept [] [] all_up all_up 0 (one_hour + 1)
           (sample_body one_hour)); reflexivity.
Defined.

(* ====================================================================== *)
(** * Properties of auth.py *)

(** ** Queries and updates on the users table *)

Lemma query_user_by_email_spec (e : string) (rows : list User.t) (u : User.t) :
  query_user_by_email e rows = Some u -> In u rows /\ User.email u = e.
Proof.
  unfold query_user_by_email. intros H. apply find_some in H.
  destruct H as [Hin He]. split; [exact Hin|]. now apply String.eqb_eq.
Qed.

Lemma query_user_by_email_none (e : string) (rows : list User.t) :
  query_user_by_email e rows = None <-> ~ In e (map User.email rows).
Proof.
  unfold query_user_by_email. split.
  - intros H Hin. apply in_map_iff in Hin. destruct Hin as [u [He Hin]].
    apply (find_none _ _ H) in Hin. cbv beta in Hin.
    apply String.eqb_neq in Hin. contradiction.
  - intros H. destruct (find _ rows) as [u|] eqn:Hu; [|reflexivity].
    exfalso. apply H. apply find_some in Hu. destruct Hu as [Hin He].
    apply String.eqb_eq in He. apply in_map_iff. exists u. tauto.
Qed.

Lemma query_user_after_update (e : string) (f : User.t -> User.t)
    (rows : list User.t) (u : User.t) :
  (forall x, User.email (f x) = User.email x) ->
  query_user_by_email e rows = Some u ->
  query_user_by_email e (update_user_where_id (User.id u) f rows) = Some (f u).
Proof.
  intros Hf Hu. unfold query_user_by_email, update_user_where_id in *.
  rewrite find_map_stable.
  - rewrite Hu. cbn [option_map]. now rewrite Z.eqb_refl.
  - intros x. destruct (User.id x =? User.id u); [now rewrite Hf|reflexivity].
Qed.

Lemma query_other_user_after_update (e : string) (f : User.t -> User.t)
    (rows : list User.t) (pk : Z) :
  (forall x, User.email (f x) = User.email x) ->
  (forall x, In x rows -> User.id x = pk -> User.email x <> e) ->
  query_user_by_email e (update_user_where_id pk f rows) = query_user_by_email e rows.
Proof.
  intros Hf Hother. unfold query_user_by_email, update_user_where_id.
  induction rows as [|x rows IH]; cbn [map find]; [reflexivity|].
  assert (IH' : find (fun u => (User.email u =? e)%string)
                     (map (fun u => if User.id u =? pk then f u else u) rows)
                = find (fun u => (User.email u =? e)%string) rows).
  { apply IH. intros y Hy. apply Hother. now right. }
  destruct (Z.eqb_spec (User.id x) pk) as [Hx|Hx].
  - rewrite Hf. specialize (Hother x (or_introl eq_refl) Hx).
    apply String.eqb_neq in Hother. rewrite Hother. exact IH'.
  - destruct (User.email x =? e)%string; [reflexivity|exact IH'].
Qed.

Lemma refresh_after_update (f : User.t -> User.t) (rows : list User.t) (u : User.t) :
  (forall x, User.id (f x) = User.id x) ->
  In u rows ->
  exists u0, In u0 rows /\ User.id u0 = User.id u /\
    find (fun x => User.id x =? User.id u) (update_user_where_id (User.id u) f rows)
      = Some (f u0).
Proof.
  intros Hf Hin. unfold update_user_where_id. rewrite find_map_stable.
  - destruct (find (fun x => User.id x =? User.id u) rows) as [u0|] eqn:Hu0.
    + apply find_some in Hu0. destruct Hu0 as [Hin0 Hid0].
      exists u0. cbn [option_map]. rewrite Hid0.
      apply Z.eqb_eq in Hid0. tauto.
    + apply (find_none _ _ Hu0) in Hin. cbv beta in Hin.
      rewrite Z.eqb_refl in Hin. discriminate.
  - intros x. destruct (User.id x =? User.id u) eqn:Hx; [now rewrite Hf, Hx|exact Hx].
Qed.

Lemma find_by_distinct_id (rows : list User.t) (u : User.t) :
  NoDup (map User.id rows) -> In u rows ->
  find (fun x => User.id x =? User.id u) rows = Some u.
Proof.
  induction rows as [|x rows IH]; intros Hnd Hin; [contradiction|].
  cbn [map] in Hnd. apply NoDup_cons_iff in Hnd. destruct Hnd as [Hx Hnd].
  cbn [find]. destruct Hin as [->|Hin]; [now rewrite Z.eqb_refl|].
  destruct (Z.eqb_spec (User.id x) (User.id u)) as [E|_]; [|now apply IH].
  exfalso. apply Hx. rewrite E. now apply in_map.
Qed.

(** ** Failing requests change nothing *)

(** X14.  Whatever the state of the users table, a request to the auth
    router that raises leaves the users and the queue of mails exactly as
    they were; the id sequence is as it was too, except that a register
    whose commit fails may have consumed one id.  The refresh after a
    committed OTP check always finds its row, and [get_current_user] never
    changes anything. *)
Theorem failed_auth_request_changes_nothing (env : AuthEnv) (r : AuthRequest)
    (token : string) (w : AuthWorld) :
  (auth_raised env r w <> None ->
     users (auth_serve env r w) = users w /\
     background_tasks (auth_serve env r w) = background_tasks w /\
     next_user_id w <= next_user_id (auth_serve env r w) <= next_user_id w + 1 /\
     match r with
     | PostRegister _ _ => True
     | _ => auth_serve env r w = w
     end) /\
  auth_raised env r w <> Some AuthInvalidRequestError /\
  (forall now, snd (get_current_user env now token w) = w).
Proof.
  assert (Hsame : forall w' : AuthWorld, w' = w ->
            users w' = users w /\ background_tasks w' = background_tasks w /\
            next_user_id w <= next_user_id w' <= next_user_id w + 1 /\ w' = w).
  { intros w' ->. repeat split; lia. }
  assert (Hcheck : forall change now otp_data,
            (forall x, User.id (change x) = User.id x) ->
            (raised (check_otp_then change env now otp_data w) <> None ->
             snd (check_otp_then change env now otp_data w) = w) /\
            raised (check_otp_then change env now otp_data w)
              <> Some AuthInvalidRequestError).
  { intros change now otp_data Hid. unfold check_otp_then, raised.
    destruct (query_user_by_email _ _) as [u|] eqn:Hu; [|split; [reflexivity|discriminate]].
    destruct (negb _); [split; [reflexivity|discriminate]|].
    destruct (User.otp_expires_at u) as [t|]; [|split; [reflexivity|discriminate]].
    destruct (t <? now); [split; [reflexivity|discriminate]|].
    destruct (auth_commit_ok env); [|split; [reflexivity|discriminate]].
    apply query_user_by_email_spec in Hu. destruct Hu as [Hin _].
    destruct (refresh_after_update change _ _ Hid Hin) as [u0 [_ [_ Hfind]]].
    rewrite Hfind. cbn [fst snd]. split; [congruence|discriminate]. }
  split; [|split].
  - destruct r as [now d|now d|now d|now d|now d]; cbn [auth_serve auth_raised]; intros Hr.
    + revert Hr. unfold register, raised.
      destruct (query_user_by_email _ _); [intros _; cbn [snd]; repeat split; lia|].
      destruct (auth_commit_ok env); [cbn; congruence|].
      destruct (auth_flushed_before_failure env); intros _; cbn; repeat split; lia.
    + apply Hsame. now apply Hcheck.
    + apply Hsame. revert Hr. unfold login, issue_otp, raised.
      destruct (query_user_by_email _ _) as [u|]; [|reflexivity].
      destruct (negb _); [reflexivity|].
      destruct (User.is_verified u =? 0); [reflexivity|].
      destruct (auth_commit_ok env); [cbn; congruence|reflexivity].
    + apply Hsame. now apply Hcheck.
    + apply Hsame. revert Hr. unfold resend_otp, issue_otp, raised.
      destruct (query_user_by_email _ _) as [u|]; [|reflexivity].
      destruct (auth_commit_ok env); [cbn; congruence|reflexivity].
  - destruct r as [now d|now d|now d|now d|now d]; cbn [auth_raised].
    + unfold register, raised.
      destruct (query_user_by_email _ _); [discriminate|].
      destruct (auth_commit_ok env); [discriminate|].
      destruct (auth_flushed_before_failure env); discriminate.
    + apply Hcheck. reflexivity.
    + unfold login, issue_otp, raised.
      destruct (query_user_by_email _ _) as [u|]; [|discriminate].
      destruct (negb _); [discriminate|].
      destruct (User.is_verified u =? 0); [discriminate|].
      destruct (auth_commit_ok env); discriminate.
    + apply Hcheck. reflexivity.
    + unfold resend_otp, issue_otp, raised.
      destruct (query_user_by_email _ _) as [u|]; [|discriminate].
      destruct (auth_commit_ok env); discriminate.
  - intros now. unfold get_current_user.
    destruct (decode_token env now token) as [[|kv payload]|]; try reflexivity.
    destruct (dict_get "sub" (kv :: payload)) as [[| | |email|]|]; try reflexivity.
    destruct (query_user_by_email email (users w)); reflexivity.
Qed.

(** A second registration under the same email, and a registration that
    fails at the commit after its INSERT was flushed. *)
Lemma failed_auth_request_changes_nothing_witness :
  let w := auth_serve toy_auth_env (PostRegister 0 john) empty_auth_world in
  let down := mkAuthEnv false 123456 (fun p => p) String.eqb (fun _ => "token")
                        (fun _ _ => None) true in
  (users (auth_serve toy_auth_env (PostRegister 5 john) w) = users w /\
   background_tasks (auth_serve toy_auth_env (PostRegister 5 john) w) = background_tasks w /\
   next_user_id w <= next_user_id (auth_serve toy_auth_env (PostRegister 5 john) w)
     <= next_user_id w + 1 /\ True) /\
  (users (auth_serve down (PostRegister 5 john) empty_auth_world) = [] /\
   background_tasks (auth_serve down (PostRegister 5 john) empty_auth_world) = [] /\
   1 <= next_user_id (auth_serve down (PostRegister 5 john) empty_auth_world) <= 1 + 1 /\
   True).
Proof.
  intros w down. split.
  - apply (proj1 (failed_auth_request_changes_nothing toy_auth_env (PostRegister 5 john) "" w)).
    vm_compute. discriminate.
  - apply (proj1 (failed_auth_request_changes_nothing down (PostRegister 5 john) ""
                    empty_auth_world)).
    vm_compute. discriminate.
Defined.

(** ** The users table stays well formed *)

Lemma update_user_keeps_well_formed (pk : Z) (f : User.t -> User.t) (w : AuthWorld)
    (tasks : list OtpMail) :
  (forall x, User.email (f x) = User.email x) ->
  (forall x, User.id (f x) = User.id x) ->
  (forall x, well_formed_user x -> well_formed_user (f x)) ->
  well_formed_users w ->
  well_formed_users (mkAuthWorld (update_user_where_id pk f (users w)) (next_user_id w) tasks).
Proof.
  intros He Hi Hwf [Hemails [Hids [Hbelow Hrows]]]. unfold well_formed_users.
  cbn [users next_user_id]. unfold update_user_where_id.
  assert (Hme : map User.email (map (fun u => if User.id u =? pk then f u else u) (users w))
                = map User.email (users w)).
  { rewrite map_map. apply map_ext. intros u. destruct (User.id u =? pk); [apply He|reflexivity]. }
  assert (Hmi : map User.id (map (fun u => if User.id u =? pk then f u else u) (users w))
                = map User.id (users w)).
  { rewrite map_map. apply map_ext. intros u. destruct (User.id u =? pk); [apply Hi|reflexivity]. }
  rewrite Hme, Hmi. split; [exact Hemails|]. split; [exact Hids|]. split.
  - apply Forall_map. eapply Forall_impl; [|exact Hbelow].
    intros u Hu. cbv beta in Hu |- *. destruct (User.id u =? pk); [now rewrite Hi|exact Hu].
  - apply Forall_map. eapply Forall_impl; [|exact Hrows].
    intros u Hu. cbv beta. destruct (User.id u =? pk); [now apply Hwf|exact Hu].
Qed.

Lemma set_otp_well_formed (otp : string) (expires : datetime) (u : User.t) :
  well_formed_user u -> well_formed_user (set_otp (Some otp) (Some expires) u).
Proof.
  intros [_ Hv]. split; [|exact Hv]. unfold otp_columns_paired. cbn. split; discriminate.
Qed.

Lemma clear_otp_well_formed (u : User.t) :
  well_formed_user u -> well_formed_user (set_otp None None u).
Proof. intros [_ Hv]. split; [|exact Hv]. unfold otp_columns_paired. cbn. tauto. Qed.

Lemma verify_well_formed (u : User.t) :
  well_formed_user u -> well_formed_user (set_otp None None (set_is_verified 1 u)).
Proof. intros _. split; [unfold otp_columns_paired; cbn; tauto|cbn; now right]. Qed.

Lemma check_otp_then_keeps_well_formed (change : User.t -> User.t) (env : AuthEnv)
    (now : datetime) (otp_data : OTPVerify.t) (w : AuthWorld) :
  (forall x, User.email (change x) = User.email x) ->
  (forall x, User.id (change x) = User.id x) ->
  (forall x, well_formed_user x -> well_formed_user (change x)) ->
  well_formed_users w ->
  well_formed_users (snd (check_otp_then change env now otp_data w)).
Proof.
  intros He Hi Hwf Hw. unfold check_otp_then.
  destruct (query_user_by_email _ _) as [u|]; [|exact Hw].
  destruct (negb _); [exact Hw|].
  destruct (User.otp_expires_at u) as [t|]; [|exact Hw].
  destruct (t <? now); [exact Hw|].
  destruct (auth_commit_ok env); [|exact Hw].
  destruct (find _ _); cbn [snd]; now apply update_user_keeps_well_formed.
Qed.

Lemma issue_otp_keeps_well_formed (message : string) (env : AuthEnv) (now : datetime)
    (u : User.t) (w : AuthWorld) :
  well_formed_users w -> well_formed_users (snd (issue_otp message env now u w)).
Proof.
  intros Hw. unfold issue_otp. destruct (auth_commit_ok env); [|exact Hw].
  cbn [snd]. apply update_user_keeps_well_formed; try reflexivity; [|exact Hw].
  intros x. apply set_otp_well_formed.
Qed.

Lemma auth_serve_keeps_well_formed (env : AuthEnv) (r : AuthRequest) (w : AuthWorld) :
  well_formed_users w -> well_formed_users (auth_serve env r w).
Proof.
  intros Hw. destruct r as [now d|now d|now d|now d|now d]; cbn [auth_serve].
  - unfold register.
    destruct (query_user_by_email _ _) eqn:Hq; [exact Hw|].
    destruct (auth_commit_ok env).
    2:{ destruct (auth_flushed_before_failure env); [|exact Hw].
        destruct Hw as [Hemails [Hids [Hbelow Hrows]]].
        unfold well_formed_users. cbn [snd users next_user_id].
        repeat split; try assumption.
        eapply Forall_impl; [|exact Hbelow]. intros u Hu. cbv beta in Hu |- *. lia. }
    destruct Hw as [Hemails [Hids [Hbelow Hrows]]].
    unfold well_formed_users. cbn [snd users next_user_id].
    rewrite !map_app. cbn [map User.email User.id].
    split; [|split; [|split]].
    + apply NoDup_app; [exact Hemails|repeat constructor; intros []|].
      intros x Hx [<-|[]]. now apply query_user_by_email_none in Hq.
    + apply NoDup_app; [exact Hids|repeat constructor; intros []|].
      intros x Hx [<-|[]]. apply in_map_iff in Hx. destruct Hx as [u [Hu Hin]].
      rewrite Forall_forall in Hbelow. apply Hbelow in Hin. lia.
    + apply Forall_app. split.
      * eapply Forall_impl; [|exact Hbelow]. intros u Hu. cbv beta in Hu |- *. lia.
      * constructor; [cbn; lia|constructor].
    + apply Forall_app. split; [exact Hrows|].
      constructor; [|constructor]. split; [|cbn; now left].
      unfold otp_columns_paired. cbn. split; discriminate.
  - apply check_otp_then_keeps_well_formed; try reflexivity; [|exact Hw].
    intros x. apply verify_well_formed.
  - unfold login.
    destruct (query_user_by_email _ _) as [u|]; [|exact Hw].
    destruct (negb _); [exact Hw|].
    destruct (User.is_verified u =? 0); [exact Hw|].
    now apply issue_otp_keeps_well_formed.
  - apply check_otp_then_keeps_well_formed; try reflexivity; [|exact Hw].
    intros x. apply clear_otp_well_formed.
  - unfold resend_otp.
    destruct (query_user_by_email _ _) as [u|]; [|exact Hw].
    now apply issue_otp_keeps_well_formed.
Qed.

Lemma auth_serve_all_keeps_well_formed (reqs : list (AuthEnv * AuthRequest)) (w : AuthWorld) :
  well_formed_users w -> well_formed_users (auth_serve_all reqs w).
Proof.
  revert w. induction reqs as [|[env r] reqs IH]; intros w Hw; cbn; [exact Hw|].
  apply IH. now apply auth_serve_keeps_well_formed.
Qed.

Lemma empty_auth_world_well_formed : well_formed_users empty_auth_world.
Proof. repeat split; constructor. Qed.

(** X15.  In every state reached from an empty users table by requests to the
    auth router, whatever the environment does: no two users share an
    email or an id; each user has the OTP and its expiry both set or both
    cleared, and [is_verified] 0 or 1; and therefore no request can ever
    fail on comparing a missing expiry with the clock. *)
Theorem users_table_stays_well_formed (reqs : list (AuthEnv * AuthRequest))
    (env : AuthEnv) (r : AuthRequest) :
  let w := auth_serve_all reqs empty_auth_world in
  NoDup (map User.email (users w)) /\
  NoDup (map User.id (users w)) /\
  Forall (fun u => (User.otp_code u = None <-> User.otp_expires_at u = None) /\
                   (User.is_verified u = 0 \/ User.is_verified u = 1)) (users w) /\
  auth_raised env r w <> Some AuthTypeError.
Proof.
  intros w.
  assert (Hw : well_formed_users w).
  { apply auth_serve_all_keeps_well_formed, empty_auth_world_well_formed. }
  destruct Hw as [Hemails [Hids [_ Hrows]]].
  split; [exact Hemails|]. split; [exact Hids|]. split; [exact Hrows|].
  assert (Hcheck : forall change now otp_data,
            raised (check_otp_then change env now otp_data w) <> Some AuthTypeError).
  { intros change now otp_data. unfold check_otp_then, raised.
    destruct (query_user_by_email _ _) as [u|] eqn:Hu; [|discriminate].
    destruct (otp_code_equals _ _) eqn:Hotp; [|discriminate]. cbn [negb].
    destruct (User.otp_expires_at u) as [t|] eqn:Ht.
    - destruct (t <? now); [discriminate|].
      destruct (auth_commit_ok env); [|discriminate].
      destruct (find _ _); discriminate.
    - exfalso. apply query_user_by_email_spec in Hu. destruct Hu as [Hin _].
      rewrite Forall_forall in Hrows. destruct (Hrows u Hin) as [Hpair _].
      apply Hpair in Ht. rewrite Ht in Hotp. discriminate. }
  destruct r as [now d|now d|now d|now d|now d]; cbn [auth_raised].
  - unfold register, raised.
    destruct (query_user_by_email _ _); [discriminate|].
    destruct (auth_commit_ok env); [discriminate|].
    destruct (auth_flushed_before_failure env); discriminate.
  - apply Hcheck.
  - unfold login, issue_otp, raised.
    destruct (query_user_by_email _ _) as [u|]; [|discriminate].
    destruct (negb _); [discriminate|].
    destruct (User.is_verified u =? 0); [discriminate|].
    destruct (auth_commit_ok env); discriminate.
  - apply Hcheck.
  - unfold resend_otp, issue_otp, raised.
    destruct (query_user_by_email _ _) as [u|]; [|discriminate].
    destruct (auth_commit_ok env); discriminate.
Qed.

(** ** One-time passwords *)

Lemma check_otp_then_success (change : User.t -> User.t) (env : AuthEnv) (now : datetime)
    (otp_data : OTPVerify.t) (w : AuthWorld) (u : User.t) (t : datetime) :
  (forall x, User.id (change x) = User.id x) ->
  NoDup (map User.id (users w)) ->
  query_user_by_email (OTPVerify.email otp_data) (users w) = Some u ->
  User.otp_code u = Some (OTPVerify.otp otp_data) ->
  User.otp_expires_at u = Some t ->
  now <= t ->
  auth_commit_ok env = true ->
  check_otp_then change env now otp_data w
  = (AuthReturn (token_for env now (change u)),
     mkAuthWorld (update_user_where_id (User.id u) change (users w))
                 (next_user_id w) (background_tasks w)).
Proof.
  intros Hid Hids Hu Hotp Ht Hle Hok. unfold check_otp_then.
  rewrite Hu, Hotp. cbn [otp_code_equals]. rewrite String.eqb_refl. cbn [negb].
  rewrite Ht. destruct (Z.ltb_spec t now) as [Hlt|_]; [lia|]. rewrite Hok.
  apply query_user_by_email_spec in Hu. destruct Hu as [Hin _].
  unfold update_user_where_id.
  assert (Hfind : find (fun x => User.id x =? User.id u)
                       (map (fun x => if User.id x =? User.id u then change x else x) (users w))
                  = Some (change u)).
  { clear - Hid Hids Hin. induction (users w) as [|x rows IH]; [contradiction|].
    cbn [map] in Hids. apply NoDup_cons_iff in Hids. destruct Hids as [Hx Hids].
    cbn [map find]. destruct Hin as [->|Hin].
    - now rewrite Z.eqb_refl, Hid, Z.eqb_refl.
    - destruct (Z.eqb_spec (User.id x) (User.id u)) as [E|E].
      + exfalso. apply Hx. rewrite E. now apply in_map.
      + destruct (Z.eqb_spec (User.id x) (User.id u)); [contradiction|]. now apply IH. }
  now rewrite Hfind.
Qed.

Lemma register_success (env : AuthEnv) (now : datetime) (d : UserCreate.t) (w : AuthWorld) :
  query_user_by_email (UserCreate.email d) (users w) = None ->
  auth_commit_ok env = true ->
  let db_user :=
    User.mk (next_user_id w) (UserCreate.name d) (UserCreate.email d) (UserCreate.phone d)
            (get_password_hash env (UserCreate.password d)) (UserCreate.role d)
            (Some (generate_otp env)) (Some (now + OTP_LIFETIME)) 0 now in
  register env now d w
  = (AuthReturn (MessageResponse.mk
                   "Registration successful. Please check your email for OTP."
                   (Some (UserCreate.email d))),
     mkAuthWorld (users w ++ [db_user]) (next_user_id w + 1)
                 (background_tasks w
                  ++ [mkOtpMail (UserCreate.email d) (generate_otp env) (UserCreate.name d)])) /\
  query_user_by_email (UserCreate.email d) (users w ++ [db_user]) = Some db_user.
Proof.
  intros Hq Hok db_user. unfold register. rewrite Hq, Hok. split; [reflexivity|].
  unfold query_user_by_email in *.
  rewrite find_app_last by (cbn; apply String.eqb_refl). now rewrite Hq.
Qed.

(** X16.  Registration followed by verification, in any reachable state and
    with the store available.  A new email is registered unverified and
    the OTP is queued for mailing.  Verifying with that OTP succeeds at
    any instant up to and including ten minutes after registration: the
    token is a bearer token for that user, who is then stored verified
    with the OTP cleared.  One microsecond later the same request fails
    with "OTP expired", and any other code fails with "Invalid OTP", both
    without changing anything. *)
Theorem register_then_verify_otp (reqs : list (AuthEnv * AuthRequest))
    (env env' : AuthEnv) (now now' : datetime) (d : UserCreate.t) (wrong : string) :
  let w := auth_serve_all reqs empty_auth_world in
  let w1 := snd (register env now d w) in
  let otp_data := OTPVerify.mk (UserCreate.email d) (generate_otp env) in
  query_user_by_email (UserCreate.email d) (users w) = None ->
  auth_commit_ok env = true ->
  auth_commit_ok env' = true ->
  (exists u, query_user_by_email (UserCreate.email d) (users w1) = Some u /\
             User.is_verified u = 0 /\
             background_tasks w1
               = background_tasks w
                 ++ [mkOtpMail (UserCreate.email d) (generate_otp env) (UserCreate.name d)]) /\
  (now' <= now + OTP_LIFETIME ->
     exists tok u',
       fst (verify_otp env' now' otp_data w1) = AuthReturn tok /\
       Token.token_type tok = "bearer" /\
       UserResponse.email (Token.user tok) = UserCreate.email d /\
       UserResponse.is_verified (Token.user tok) = 1 /\
       query_user_by_email (UserCreate.email d)
         (users (snd (verify_otp env' now' otp_data w1))) = Some u' /\
       User.is_verified u' = 1 /\ User.otp_code u' = None /\ User.otp_expires_at u' = None) /\
  (now + OTP_LIFETIME < now' ->
     verify_otp env' now' otp_data w1
     = (AuthRaise (AuthHTTPException 400 "OTP expired"), w1)) /\
  (wrong <> generate_otp env ->
     verify_otp env' now' (OTPVerify.mk (UserCreate.email d) wrong) w1
     = (AuthRaise (AuthHTTPException 400 "Invalid OTP"), w1)).
Proof.
  intros w w1 otp_data Hfresh Hok Hok'.
  assert (Hw : well_formed_users w).
  { apply auth_serve_all_keeps_well_formed, empty_auth_world_well_formed. }
  assert (Hw1 : well_formed_users w1).
  { apply (auth_serve_keeps_well_formed env (PostRegister now d) w Hw). }
  destruct (register_success env now d w Hfresh Hok) as [Hreg Hq].
  cbv zeta in Hreg, Hq. subst w1 otp_data. rewrite Hreg in *. cbn [snd] in *.
  cbn [users] in Hq.
  split; [|split; [|split]].
  - eexists. split; [exact Hq|]. split; reflexivity.
  - intros Hle. unfold verify_otp.
    erewrite check_otp_then_success;
      [|reflexivity|apply Hw1|exact Hq|reflexivity|reflexivity|exact Hle|exact Hok'].
    do 2 eexists. cbn [fst snd users].
    split; [reflexivity|]. split; [reflexivity|]. split; [reflexivity|].
    split; [reflexivity|]. split.
    + exact (query_user_after_update _ (fun u => set_otp None None (set_is_verified 1 u))
               _ _ (fun x => eq_refl) Hq).
    + repeat split.
  - intros Hlt. unfold verify_otp, check_otp_then. cbn [OTPVerify.email users].
    rewrite Hq. cbn [User.otp_code User.otp_expires_at otp_code_equals OTPVerify.otp].
    rewrite String.eqb_refl. cbn [negb].
    destruct (Z.ltb_spec (now + OTP_LIFETIME) now'); [reflexivity|lia].
  - intros Hne. unfold verify_otp, check_otp_then. cbn [OTPVerify.email users].
    rewrite Hq. cbn [User.otp_code otp_code_equals OTPVerify.otp].
    destruct (String.eqb_spec (generate_otp env) wrong) as [E|_]; [congruence|reflexivity].
Qed.

(** John registers and verifies exactly ten minutes later. *)
Lemma register_then_verify_otp_witness :
  let w1 := snd (register toy_auth_env 0 john empty_auth_world) in
  let otp_data := OTPVerify.mk "john@example.com" "123456" in
  exists tok u',
    fst (verify_otp toy_auth_env OTP_LIFETIME otp_data w1) = AuthReturn tok /\
    Token.token_type tok = "bearer" /\
    UserResponse.email (Token.user tok) = "john@example.com" /\
    UserResponse.is_verified (Token.user tok) = 1 /\
    query_user_by_email "john@example.com"
      (users (snd (verify_otp toy_auth_env OTP_LIFETIME otp_data w1))) = Some u' /\
    User.is_verified u' = 1 /\ User.otp_code u' = None /\ User.otp_expires_at u' = None.
Proof.
  apply (proj1 (proj2 (register_then_verify_otp [] toy_auth_env toy_auth_env 0 OTP_LIFETIME
                         john "" eq_refl eq_refl eq_refl))).
  vm_compute. discriminate.
Defined.

Lemma check_otp_then_clears (change : User.t -> User.t) (env : AuthEnv) (now : datetime)
    (otp_data : OTPVerify.t) (w : AuthWorld) :
  (forall x, User.email (change x) = User.email x) ->
  (forall x, User.id (change x) = User.id x) ->
  (forall x, User.otp_code (change x) = None) ->
  raised (check_otp_then change env now otp_data w) = None ->
  exists u',
    query_user_by_email (OTPVerify.email otp_data)
      (users (snd (check_otp_then change env now otp_data w))) = Some u' /\
    User.otp_code u' = None.
Proof.
  intros He Hi Hc. unfold check_otp_then, raised.
  destruct (query_user_by_email _ _) as [u|] eqn:Hu; [|discriminate].
  destruct (negb _); [discriminate|].
  destruct (User.otp_expires_at u) as [t|]; [|discriminate].
  destruct (t <? now); [discriminate|].
  destruct (auth_commit_ok env); [|discriminate].
  destruct (find _ _); cbn [fst snd users]; [|discriminate].
  intros _. exists (change u). split; [|apply Hc].
  now apply query_user_after_update.
Qed.

Lemma no_code_no_entry (change : User.t -> User.t) (env : AuthEnv) (now : datetime)
    (otp_data : OTPVerify.t) (w : AuthWorld) (u : User.t) :
  query_user_by_email (OTPVerify.email otp_data) (users w) = Some u ->
  User.otp_code u = None ->
  check_otp_then change env now otp_data w
  = (AuthRaise (AuthHTTPException 400 "Invalid OTP"), w).
Proof.
  intros Hu Hc. unfold check_otp_then. now rewrite Hu, Hc.
Qed.

(** X17.  An OTP works once.  After [verify_otp] or [login_verify] has
    succeeded for an email, every further OTP check for that email, with
    the same code or any other, at any time, fails with "Invalid OTP" and
    changes nothing, until a new code is issued. *)
Theorem otp_is_single_use (env env' : AuthEnv) (now now' : datetime)
    (otp_data : OTPVerify.t) (otp' : string) (w : AuthWorld) :
  let again := OTPVerify.mk (OTPVerify.email otp_data) otp' in
  (raised (verify_otp env now otp_data w) = None ->
     let w' := snd (verify_otp env now otp_data w) in
     verify_otp env' now' again w' = (AuthRaise (AuthHTTPException 400 "Invalid OTP"), w') /\
     login_verify env' now' again w' = (AuthRaise (AuthHTTPException 400 "Invalid OTP"), w')) /\
  (raised (login_verify env now otp_data w) = None ->
     let w' := snd (login_verify env now otp_data w) in
     verify_otp env' now' again w' = (AuthRaise (AuthHTTPException 400 "Invalid OTP"), w') /\
     login_verify env' now' again w' = (AuthRaise (AuthHTTPException 400 "Invalid OTP"), w')).
Proof.
  intros again. split; intros Hsucc w'; subst w'.
  - destruct (check_otp_then_clears (fun u => set_otp None None (set_is_verified 1 u))
                env now otp_data w
                (fun x => eq_refl) (fun x => eq_refl) (fun x => eq_refl) Hsucc)
      as [u' [Hu' Hc]].
    split; apply (no_code_no_entry _ _ _ again _ u' Hu' Hc).
  - destruct (check_otp_then_clears (set_otp None None) env now otp_data w
                (fun x => eq_refl) (fun x => eq_refl) (fun x => eq_refl) Hsucc)
      as [u' [Hu' Hc]].
    split; apply (no_code_no_entry _ _ _ again _ u' Hu' Hc).
Qed.

(** John verifies, then tries the same code again. *)
Lemma otp_is_single_use_witness :
  let w1 := snd (register toy_auth_env 0 john empty_auth_world) in
  let otp_data := OTPVerify.mk "john@example.com" "123456" in
  let w' := snd (verify_otp toy_auth_env 5 otp_data w1) in
  verify_otp toy_auth_env 6 otp_data w' = (AuthRaise (AuthHTTPException 400 "Invalid OTP"), w') /\
  login_verify toy_auth_env 6 otp_data w' = (AuthRaise (AuthHTTPException 400 "Invalid OTP"), w').
Proof.
  intros w1 otp_data w'.
  apply (proj1 (otp_is_single_use toy_auth_env toy_auth_env 5 6 otp_data "123456" w1)).
  reflexivity.
Defined.

(** ** Login *)

(** X18.  [login] returns normally only for a known email whose password
    verifies against the stored hash and whose account is verified; it
    then stores a fresh OTP valid for ten minutes and queues one mail with
    that OTP to the user.  An unknown email and a wrong password are
    answered by the same 401 error, and an unverified account by a 400,
    all without any change. *)
Theorem login_requires_password_and_verification (env : AuthEnv) (now : datetime)
    (login_data : UserLogin.t) (w : AuthWorld) :
  let r := login env now login_data w in
  let found := query_user_by_email (UserLogin.email login_data) (users w) in
  (forall m, fst r = AuthReturn m ->
     exists u,
       found = Some u /\
       verify_password env (UserLogin.password login_data) (User.password_hash u) = true /\
       User.is_verified u <> 0 /\
       m = MessageResponse.mk "OTP sent to your email." (Some (User.email u)) /\
       query_user_by_email (UserLogin.email login_data) (users (snd r))
         = Some (set_otp (Some (generate_otp env)) (Some (now + OTP_LIFETIME)) u) /\
       background_tasks (snd r)
         = background_tasks w ++ [mkOtpMail (User.email u) (generate_otp env) (User.name u)]) /\
  (found = None \/
   (exists u, found = Some u /\
      verify_password env (UserLogin.password login_data) (User.password_hash u) = false) ->
     r = (AuthRaise (AuthHTTPException 401 "Invalid email or password"), w)) /\
  (forall u, found = Some u ->
     verify_password env (UserLogin.password login_data) (User.password_hash u) = true ->
     User.is_verified u = 0 ->
     r = (AuthRaise (AuthHTTPException 400 "Account not verified. Please verify OTP first."),
          w)).
Proof.
  intros r found. subst r found. unfold login, issue_otp. split; [|split].
  - intros m. destruct (query_user_by_email _ _) as [u|] eqn:Hu; [|discriminate].
    destruct (verify_password env _ _) eqn:Hp; cbn [negb]; [|discriminate].
    destruct (Z.eqb_spec (User.is_verified u) 0) as [Hv|Hv]; [discriminate|].
    destruct (auth_commit_ok env); [|discriminate].
    cbn [fst snd users background_tasks]. intros [= <-]. exists u.
    split; [reflexivity|]. split; [exact Hp|]. split; [exact Hv|].
    split; [reflexivity|]. split; [|reflexivity].
    now apply query_user_after_update.
  - intros [H|[u [H Hp]]]; rewrite H; [reflexivity|]. now rewrite Hp.
  - intros u H Hp Hv. now rewrite H, Hp, Hv.
Qed.

(** X19.  [login_verify] does not look at [is_verified].  In any reachable
    state, a user who has just registered can pass the registration OTP to
    [login_verify] within ten minutes and gets a bearer token, while the
    account stays unverified: [login] keeps refusing it, whatever
    password is given. *)
Theorem login_verify_skips_verification (reqs : list (AuthEnv * AuthRequest))
    (env env' env'' : AuthEnv) (now now' now'' : datetime) (d : UserCreate.t)
    (password : string) :
  let w := auth_serve_all reqs empty_auth_world in
  let w1 := snd (register env now d w) in
  let otp_data := OTPVerify.mk (UserCreate.email d) (generate_otp env) in
  let w2 := snd (login_verify env' now' otp_data w1) in
  query_user_by_email (UserCreate.email d) (users w) = None ->
  auth_commit_ok env = true ->
  auth_commit_ok env' = true ->
  now' <= now + OTP_LIFETIME ->
  exists tok u',
    fst (login_verify env' now' otp_data w1) = AuthReturn tok /\
    Token.token_type tok = "bearer" /\
    UserResponse.email (Token.user tok) = UserCreate.email d /\
    UserResponse.is_verified (Token.user tok) = 0 /\
    query_user_by_email (UserCreate.email d) (users w2) = Some u' /\
    User.is_verified u' = 0 /\
    raised (login env'' now'' (UserLogin.mk (UserCreate.email d) password) w2) <> None.
Proof.
  intros w w1 otp_data w2 Hfresh Hok Hok' Hle.
  assert (Hw : well_formed_users w).
  { apply auth_serve_all_keeps_well_formed, empty_auth_world_well_formed. }
  assert (Hw1 : well_formed_users w1).
  { apply (auth_serve_keeps_well_formed env (PostRegister now d) w Hw). }
  destruct (register_success env now d w Hfresh Hok) as [Hreg Hq].
  cbv zeta in Hreg, Hq. subst w2 w1 otp_data. rewrite Hreg in *. cbn [snd] in *.
  cbn [users] in Hq. unfold login_verify.
  erewrite check_otp_then_success;
    [|reflexivity|apply Hw1|exact Hq|reflexivity|reflexivity|exact Hle|exact Hok'].
  do 2 eexists. cbn [fst snd users].
  split; [reflexivity|]. split; [reflexivity|]. split; [reflexivity|].
  split; [reflexivity|].
  pose proof (query_user_after_update _ (set_otp None None) _ _ (fun x => eq_refl) Hq) as Hq2.
  split; [exact Hq2|]. split; [reflexivity|].
  unfold login, raised. cbn [UserLogin.email users]. rewrite Hq2.
  destruct (negb _); [discriminate|]. cbn. discriminate.
Qed.

(** John registers and uses the registration code on [login_verify]. *)
Lemma login_verify_skips_verification_witness :
  let w1 := snd (register toy_auth_env 0 john empty_auth_world) in
  let otp_data := OTPVerify.mk "john@example.com" "123456" in
  let w2 := snd (login_verify toy_auth_env 5 otp_data w1) in
  exists tok u',
    fst (login_verify toy_auth_env 5 otp_data w1) = AuthReturn tok /\
    Token.token_type tok = "bearer" /\
    UserResponse.email (Token.user tok) = "john@example.com" /\
    UserResponse.is_verified (Token.user tok) = 0 /\
    query_user_by_email "john@example.com" (users w2) = Some u' /\
    User.is_verified u' = 0 /\
    raised (login toy_auth_env 9 (UserLogin.mk "john@example.com" "password123") w2) <> None.
Proof.
  apply (login_verify_skips_verification [] toy_auth_env toy_auth_env toy_auth_env
           0 5 9 john "password123"); try reflexivity.
  vm_compute. discriminate.
Defined.

(** John, verified, logs in with his password. *)
Lemma login_requires_password_and_verification_witness :
  let w := mkAuthWorld [john_verified] 2 [] in
  exists u,
    query_user_by_email "john@example.com" (users w) = Some u /\
    verify_password toy_auth_env "password123" (User.password_hash u) = true /\
    User.is_verified u <> 0 /\
    MessageResponse.mk "OTP sent to your email." (Some "john@example.com")
      = MessageResponse.mk "OTP sent to your email." (Some (User.email u)) /\
    query_user_by_email "john@example.com"
      (users (snd (login toy_auth_env 0 (UserLogin.mk "john@example.com" "password123") w)))
      = Some (set_otp (Some (generate_otp toy_auth_env)) (Some (0 + OTP_LIFETIME)) u) /\
    background_tasks (snd (login toy_auth_env 0 (UserLogin.mk "john@example.com" "password123") w))
      = background_tasks w
        ++ [mkOtpMail (User.email u) (generate_otp toy_auth_env) (User.name u)].
Proof.
  intros w.
  apply (proj1 (login_requires_password_and_verification toy_auth_env 0
                  (UserLogin.mk "john@example.com" "password123") w)).
  reflexivity.
Defined.

(** X20.  [resend_otp] asks for nothing but a known email.  With the store
    available it replaces the stored code by a fresh one valid for ten
    minutes from now and queues one mail with it, leaving [is_verified]
    as it was; from then on any other code, the one issued before
    included, is refused with "Invalid OTP". *)
Theorem resend_otp_replaces_code (env env' : AuthEnv) (now now' : datetime)
    (resend_data : OTPResend.t) (otp' : string) (w : AuthWorld) (u : User.t) :
  query_user_by_email (OTPResend.email resend_data) (users w) = Some u ->
  auth_commit_ok env = true ->
  let r := resend_otp env now resend_data w in
  let other := OTPVerify.mk (OTPResend.email resend_data) otp' in
  fst r = AuthReturn (MessageResponse.mk "OTP resent to your email." (Some (User.email u))) /\
  query_user_by_email (OTPResend.email resend_data) (users (snd r))
    = Some (set_otp (Some (generate_otp env)) (Some (now + OTP_LIFETIME)) u) /\
  background_tasks (snd r)
    = background_tasks w ++ [mkOtpMail (User.email u) (generate_otp env) (User.name u)] /\
  (otp' <> generate_otp env ->
     verify_otp env' now' other (snd r)
       = (AuthRaise (AuthHTTPException 400 "Invalid OTP"), snd r) /\
     login_verify env' now' other (snd r)
       = (AuthRaise (AuthHTTPException 400 "Invalid OTP"), snd r)).
Proof.
  intros Hu Hok r other. subst r other. unfold resend_otp, issue_otp. rewrite Hu, Hok.
  cbn [fst snd users background_tasks].
  pose proof (query_user_after_update _
                (set_otp (Some (generate_otp env)) (Some (now + OTP_LIFETIME)))
                _ _ (fun x => eq_refl) Hu) as Hq.
  split; [reflexivity|]. split; [exact Hq|]. split; [reflexivity|].
  intros Hne.
  assert (Hrej : forall change,
            check_otp_then change env' now'
              (OTPVerify.mk (OTPResend.email resend_data) otp')
              (mkAuthWorld
                 (update_user_where_id (User.id u)
                    (set_otp (Some (generate_otp env)) (Some (now + OTP_LIFETIME))) (users w))
                 (next_user_id w)
                 (background_tasks w
                  ++ [mkOtpMail (User.email u) (generate_otp env) (User.name u)]))
            = (AuthRaise (AuthHTTPException 400 "Invalid OTP"),
               mkAuthWorld
                 (update_user_where_id (User.id u)
                    (set_otp (Some (generate_otp env)) (Some (now + OTP_LIFETIME))) (users w))
                 (next_user_id w)
                 (background_tasks w
                  ++ [mkOtpMail (User.email u) (generate_otp env) (User.name u)]))).
  { intros change. unfold check_otp_then. cbn [OTPVerify.email users OTPVerify.otp].
    rewrite Hq. cbn [User.otp_code set_otp otp_code_equals].
    destruct (String.eqb_spec (generate_otp env) otp') as [E|_]; [congruence|reflexivity]. }
  split; apply Hrej.
Qed.

(** John asks for a new code; the code 000000 is then refused. *)
Lemma resend_otp_replaces_code_witness :
  let w := mkAuthWorld [john_verified] 2 [] in
  let r := resend_otp toy_auth_env 0 (OTPResend.mk "john@example.com") w in
  fst r = AuthReturn (MessageResponse.mk "OTP resent to your email."
                                         (Some "john@example.com")) /\
  query_user_by_email "john@example.com" (users (snd r))
    = Some (set_otp (Some "123456") (Some (0 + OTP_LIFETIME)) john_verified) /\
  background_tasks (snd r) = [] ++ [mkOtpMail "john@example.com" "123456" "John Doe"] /\
  ("000000" <> "123456" ->
     verify_otp toy_auth_env 1 (OTPVerify.mk "john@example.com" "000000") (snd r)
       = (AuthRaise (AuthHTTPException 400 "Invalid OTP"), snd r) /\
     login_verify toy_auth_env 1 (OTPVerify.mk "john@example.com" "000000") (snd r)
       = (AuthRaise (AuthHTTPException 400 "Invalid OTP"), snd r)).
Proof.
  apply (resend_otp_replaces_code toy_auth_env toy_auth_env 0 1
           (OTPResend.mk "john@example.com") "000000"
           (mkAuthWorld [john_verified] 2 []) john_verified); reflexivity.
Defined.

(** ** Tokens *)

Lemma token_payload_subject (env : AuthEnv) (now : datetime) (u : User.t) :
  exists payload,
    Token.access_token (token_for env now u) = jwt_encode env payload /\
    dict_get "sub" payload = Some (JStr (User.email u)) /\
    dict_get "role" payload = Some (JStr (UserRole_value (User.role u))) /\
    dict_get "exp" payload = Some (JInt (now + ACCESS_TOKEN_EXPIRE)).
Proof.
  eexists. split; [reflexivity|]. repeat split.
Qed.

(** X21.  [get_current_user] changes nothing and hands out a user only for a
    token that decodes to a non-empty payload whose [sub] is that user's
    email; a token that does not decode is answered by 401, and every
    other failure by 404. *)
Theorem get_current_user_returns_subject (env : AuthEnv) (now : datetime)
    (token : string) (w : AuthWorld) :
  let r := get_current_user env now token w in
  snd r = w /\
  match fst r with
  | AuthReturn resp =>
      exists payload u,
        decode_token env now token = Some payload /\
        dict_get "sub" payload = Some (JStr (UserResponse.email resp)) /\
        In u (users w) /\
        resp = UserResponse_model_validate u
  | AuthRaise e =>
      (decode_token env now token = None ->
         e = AuthHTTPException 401 "Invalid or expired token") /\
      (e = AuthHTTPException 401 "Invalid or expired token" \/
       e = AuthHTTPException 404 "User not found")
  end.
Proof.
  intros r. subst r. unfold get_current_user.
  destruct (decode_token env now token) as [[|kv payload]|] eqn:Hd; cbn [fst snd].
  - split; [reflexivity|]. split; [discriminate|now left].
  - destruct (dict_get "sub" (kv :: payload)) as [[| | |email|]|] eqn:Hs; cbn [fst snd];
      try (split; [reflexivity|]; split; [discriminate|now right]).
    destruct (query_user_by_email email (users w)) as [u|] eqn:Hu; cbn [fst snd].
    + split; [reflexivity|]. exists (kv :: payload), u.
      apply query_user_by_email_spec in Hu. destruct Hu as [Hin He].
      split; [reflexivity|]. cbn [UserResponse.email UserResponse_model_validate].
      rewrite He. repeat split; assumption.
    + split; [reflexivity|]. split; [discriminate|now right].
  - split; [reflexivity|]. split; [reflexivity|now left].
Qed.

(** X22.  A token issued for a stored user leads back to that user: the payload
    it is made from names the user's email as [sub], and whenever the JWT
    library decodes the token to a payload with that [sub],
    [get_current_user] returns exactly the user the token was issued
    for. *)
Theorem issued_token_identifies_user (env env' : AuthEnv) (now now' : datetime)
    (w : AuthWorld) (u : User.t) (payload : list (string * Json)) :
  query_user_by_email (User.email u) (users w) = Some u ->
  jwt_decode env' now' (Token.access_token (token_for env now u)) = Some payload ->
  dict_get "sub" payload = Some (JStr (User.email u)) ->
  (exists issued,
     Token.access_token (token_for env now u) = jwt_encode env issued /\
     dict_get "sub" issued = Some (JStr (User.email u))) /\
  get_current_user env' now' (Token.access_token (token_for env now u)) w
  = (AuthReturn (Token.user (token_for env now u)), w).
Proof.
  intros Hu Hdec Hsub. split.
  - destruct (token_payload_subject env now u) as [issued [Henc [Hs _]]].
    exists issued. tauto.
  - unfold get_current_user, decode_token. rewrite Hdec.
    destruct payload as [|kv payload]; [discriminate Hsub|].
    now rewrite Hsub, Hu.
Qed.

(** With a library whose tokens all decode to John's payload. *)
Lemma issued_token_identifies_user_witness :
  get_current_user toy_auth_env 5 (Token.access_token (token_for toy_auth_env 0 john_verified))
                   (mkAuthWorld [john_verified] 2 [])
  = (AuthReturn (Token.user (token_for toy_auth_env 0 john_verified)),
     mkAuthWorld [john_verified] 2 []).
Proof.
  apply (proj2 (issued_token_identifies_user toy_auth_env toy_auth_env 0 5
                  (mkAuthWorld [john_verified] 2 []) john_verified
                  [ ("sub", JStr "john@example.com"); ("role", JStr "VOLUNTEER");
                    ("exp", JInt ACCESS_TOKEN_EXPIRE) ]
                  eq_refl eq_refl eq_refl)).
Defined.

(** ** The generated code *)

Ltac digit_cases x H :=
  let E := fresh "E" in
  assert (E : (x = 0 \/ x = 1 \/ x = 2 \/ x = 3 \/ x = 4 \/
               x = 5 \/ x = 6 \/ x = 7 \/ x = 8 \/ x = 9)%N) by lia;
  clear H;
  destruct E as [E|[E|[E|[E|[E|[E|[E|[E|[E|E]]]]]]]]]; subst x.

Ltac lia_div := zify; Z.to_euclidean_division_equations; lia.

Lemma of_lu_digit (x : N) (d : Decimal.uint) :
  (x < 10)%N -> DecimalPos.Unsigned.of_lu (digit x d) = (x + 10 * DecimalPos.Unsigned.of_lu d)%N.
Proof. intros H. digit_cases x H; reflexivity. Qed.

Lemma revapp_digit (x : N) (d d' : Decimal.uint) :
  Decimal.revapp (digit x d) d' = Decimal.revapp d (digit x d').
Proof.
  unfold digit. destruct x as [|p]; [reflexivity|].
  do 4 (try destruct p as [p|p|]); reflexivity.
Qed.

Lemma unorm_digit (x : N) (d : Decimal.uint) :
  (0 < x)%N -> (x < 10)%N -> Decimal.unorm (digit x d) = digit x d.
Proof. intros H0 H. digit_cases x H; try reflexivity. lia. Qed.

Lemma string_of_digit (x : N) (d : Decimal.uint) :
  (x < 10)%N ->
  exists c, NilEmpty.string_of_uint (digit x d) = String c (NilEmpty.string_of_uint d) /\
            NilZero.string_of_uint (digit x d) = NilEmpty.string_of_uint (digit x d) /\
            is_digit c = true.
Proof. intros H. digit_cases x H; eexists; repeat split. Qed.

Lemma six_digit_numeral (p : positive) :
  (100000 <= Npos p <= 999999)%N ->
  exists x5 x4 x3 x2 x1 x0,
    Pos.to_uint p = digit x5 (digit x4 (digit x3 (digit x2 (digit x1 (digit x0 Decimal.Nil))))) /\
    (x5 < 10 /\ x4 < 10 /\ x3 < 10 /\ x2 < 10 /\ x1 < 10 /\ x0 < 10)%N.
Proof.
  intros Hp. set (n := Npos p) in *.
  exists (n / 100000)%N, (n / 10000 mod 10)%N, (n / 1000 mod 10)%N, (n / 100 mod 10)%N,
         (n / 10 mod 10)%N, (n mod 10)%N.
  split; [|lia_div].
  set (lu := digit (n mod 10) (digit (n / 10 mod 10) (digit (n / 100 mod 10)
              (digit (n / 1000 mod 10) (digit (n / 10000 mod 10)
                (digit (n / 100000) Decimal.Nil)))))).
  assert (Hval : DecimalPos.Unsigned.of_lu lu = n).
  { subst lu. rewrite !of_lu_digit by lia_div. cbn [DecimalPos.Unsigned.of_lu]. lia_div. }
  assert (Hrev : Decimal.rev lu
                 = digit (n / 100000) (digit (n / 10000 mod 10) (digit (n / 1000 mod 10)
                     (digit (n / 100 mod 10) (digit (n / 10 mod 10)
                       (digit (n mod 10) Decimal.Nil)))))).
  { subst lu. unfold Decimal.rev. rewrite !revapp_digit. reflexivity. }
  assert (Hto : N.to_uint n = Decimal.unorm (Decimal.rev lu)).
  { rewrite <- DecimalPos.Unsigned.to_of, DecimalPos.Unsigned.of_lu_rev, Hval. reflexivity. }
  change (Pos.to_uint p) with (N.to_uint n). rewrite Hto, Hrev.
  apply unorm_digit; lia_div.
Qed.

(** X23.  Whenever [random.randint(100000, 999999)] answers within its bounds,
    [generate_otp] is a string of exactly six decimal digits: it fits the
    [String(6)] column and the length-6 constraint of [OTPVerify]. *)
Theorem generate_otp_has_six_digits (env : AuthEnv) :
  100000 <= random_randint env <= 999999 ->
  String.length (generate_otp env) = 6%nat /\
  all_chars is_digit (generate_otp env) = true.
Proof.
  unfold generate_otp, str_of_int. intros Hr.
  destruct (random_randint env) as [|p|p]; try lia.
  destruct (six_digit_numeral p) as [x5 [x4 [x3 [x2 [x1 [x0 [Hd [H5 [H4 [H3 [H2 [H1 H0]]]]]]]]]]]];
    [lia|].
  cbn [Z.to_int NilZero.string_of_int]. rewrite Hd.
  destruct (string_of_digit x5 (digit x4 (digit x3 (digit x2 (digit x1 (digit x0 Decimal.Nil)))))
              H5) as [c5 [E5 [Z5 D5]]].
  destruct (string_of_digit x4 (digit x3 (digit x2 (digit x1 (digit x0 Decimal.Nil)))) H4)
    as [c4 [E4 [_ D4]]].
  destruct (string_of_digit x3 (digit x2 (digit x1 (digit x0 Decimal.Nil))) H3)
    as [c3 [E3 [_ D3]]].
  destruct (string_of_digit x2 (digit x1 (digit x0 Decimal.Nil)) H2) as [c2 [E2 [_ D2]]].
  destruct (string_of_digit x1 (digit x0 Decimal.Nil) H1) as [c1 [E1 [_ D1]]].
  destruct (string_of_digit x0 Decimal.Nil H0) as [c0 [E0 [_ D0]]].
  rewrite Z5, E5, E4, E3, E2, E1, E0. cbn [NilEmpty.string_of_uint String.length all_chars].
  rewrite D5, D4, D3, D2, D1, D0. split; reflexivity.
Qed.

(** The code 123456. *)
Lemma generate_otp_has_six_digits_witness :
  String.length (generate_otp toy_auth_env) = 6%nat /\
  all_chars is_digit (generate_otp toy_auth_env) = true.
Proof.
  apply (generate_otp_has_six_digits toy_auth_env). cbn. lia.
Defined.
